(** * Historical-Monuments: gallery media lifecycle, public read API and
      the monument detail page

    A shallow embedding of
    - [backend/routes/galleryRoute.js]: [compressAndSaveFile] and the
      gallery handlers (POST, GET by monument, GET one, PUT, DELETE);
    - [backend/routes/publicRoute.js]: the public read handlers;
    - the [Placedetails] component: [isValidLatLong], [handleMapClick],
      the gallery and the map sections of its render, the verification
      block with its click handlers, and the loading of the page;
    - the [Home] component: [deleteMonument] and the rows of its table.

    Handlers are functions on an explicit [World] (document store, bucket,
    and the outcomes of the external calls still to come); an exception is
    a [Throw] result, and [try ... catch] is [handle]. *)

From Stdlib Require Import String Ascii NArith ZArith Decimal DecimalPos DecimalN.
From stdpp Require Import gmap strings list fin_maps sorting.

(** ** JavaScript strings *)

Module JsString.

(** A JavaScript string is a sequence of 16-bit code units. *)
Abbreviation jsstring := (list N).

(** A literal of the source, written with ASCII characters only. *)
Definition js (s : string) : jsstring :=
  (fun a => N_of_ascii a) <$> list_ascii_of_string s.

(** [s.startsWith(t)] and [s.endsWith(t)]. *)
Definition startsWith (s t : jsstring) : bool := bool_decide (t `prefix_of` s).
Definition endsWith (s t : jsstring) : bool := bool_decide (t `suffix_of` s).

(** [s.split(sep)] for a separator of one code unit (the source splits on
    "." and on ","): the result is never empty, and the empty string
    splits into one empty piece. *)
Fixpoint split (sep : N) (s : jsstring) : list jsstring :=
  match s with
  | [] => [[]]
  | c :: s' =>
      if (c =? sep)%N then [] :: split sep s'
      else match split sep s' with
           | [] => [[c]]
           | piece :: pieces => (c :: piece) :: pieces
           end
  end.

Definition dot : N := 46.
Definition comma : N := 44.

(** [!!s]: a string is truthy unless it is empty; [undefined] is falsy. *)
Definition truthy (v : option jsstring) : bool :=
  match v with
  | Some (_ :: _) => true
  | _ => false
  end.

(** [ToString] of a value that is a string or [undefined]. *)
Definition ToString (v : option jsstring) : jsstring :=
  match v with
  | Some s => s
  | None => js "undefined"
  end.

(** Decimal digits of a natural number, as a template literal prints an
    integer below 10^21. *)
Fixpoint uint_codes (u : Decimal.uint) : jsstring :=
  match u with
  | Nil => []
  | D0 u => 48%N :: uint_codes u
  | D1 u => 49%N :: uint_codes u
  | D2 u => 50%N :: uint_codes u
  | D3 u => 51%N :: uint_codes u
  | D4 u => 52%N :: uint_codes u
  | D5 u => 53%N :: uint_codes u
  | D6 u => 54%N :: uint_codes u
  | D7 u => 55%N :: uint_codes u
  | D8 u => 56%N :: uint_codes u
  | D9 u => 57%N :: uint_codes u
  end.

Definition Number_toString (n : N) : jsstring := uint_codes (N.to_uint n).

(** White space and line terminators stripped by [parseFloat]
    (ECMAScript [TrimString]): TAB, LF, VT, FF, CR, SP, NBSP, the Unicode
    space separators, LS, PS and the byte order mark. *)
Definition whiteSpace : list N :=
  [9; 10; 11; 12; 13; 32; 160; 5760; 8192; 8193; 8194; 8195; 8196; 8197;
   8198; 8199; 8200; 8201; 8202; 8232; 8233; 8239; 8287; 12288; 65279]%N.

Definition isWhiteSpace (c : N) : bool := bool_decide (c ∈ whiteSpace).

Fixpoint trimStart (s : jsstring) : jsstring :=
  match s with
  | c :: s' => if isWhiteSpace c then trimStart s' else s
  | [] => []
  end.

Definition isDigit (c : N) : bool := ((48 <=? c) && (c <=? 57))%N.

(** Does a prefix of [s] match [StrUnsignedDecimalLiteral]?  It does when
    [s] starts with "Infinity", with a digit, or with "." and a digit. *)
Definition hasUnsignedDecimalPrefix (s : jsstring) : bool :=
  startsWith s (js "Infinity")
  || match s with
     | c :: rest =>
         isDigit c
         || ((c =? dot)%N && match rest with d :: _ => isDigit d | [] => false end)
     | [] => false
     end.

(** [isNaN(parseFloat(v))].  [parseFloat] trims leading white space and
    reads the longest prefix that is a [StrDecimalLiteral] (an optional
    sign and an unsigned literal); it is NaN exactly when there is no such
    prefix.  Only this test is modelled, not the number read. *)
Definition isNaN_parseFloat (v : option jsstring) : bool :=
  let trimmed := trimStart (ToString v) in
  let unsigned :=
    match trimmed with
    | c :: rest => if ((c =? 43) || (c =? 45))%N then rest else trimmed
    | [] => trimmed
    end in
  negb (hasUnsignedDecimalPrefix unsigned).

End JsString.
Export JsString.

(** ** Data model *)

Abbreviation ObjectId := N.
Abbreviation Buffer := (list Byte.byte).

(** The file object multer hands to a handler ([upload.single("image")]
    with memory storage). *)
Record File := mkFile {
  originalname : jsstring;
  mimetype : jsstring;
  buffer : Buffer
}.

(** What the handlers call but do not define: the bucket name of the
    environment, the JPEG encoder of [sharp] (quality, input; [None] when
    encoding throws) and the URL that the presigner computes for a bucket,
    a key and a validity window in seconds. *)
Class Platform := {
  awsBucketName : jsstring;
  sharp_jpeg : Z → Buffer → option Buffer;
  signedUrl : jsstring → jsstring → Z → jsstring
}.

(** Modelled from the spec: the monument schema of [backend/models/]
    ([monumentModel.js]), with the fields the routes and the pages read.
    A document is an [_id] and the fields of its schema; a collection maps
    each [_id] to the fields. *)
Record Monument := mkMonument {
  title : jsstring;
  shortdescription : jsstring;
  description : jsstring;
  place : jsstring;
  state : jsstring;
  location : jsstring;
  ipms_place : jsstring;
  past_condition : jsstring;
  present_condition : jsstring;
  archi_imps : jsstring;
  status : Z;
  user : ObjectId;
  createdAt : Z
}.

(** Modelled from the spec: the user schema, of which the routes read the
    display name. *)
Record User := mkUser {
  name : jsstring
}.

(** Modelled from the spec: the gallery schema, with the owning monument,
    the display title and the storage key. *)
Record GalleryItem := mkGalleryItem {
  monumentId : jsstring;
  imgTitle : jsstring;
  image : jsstring
}.

Definition Doc (T : Type) : Type := ObjectId * T.

(** An object of the bucket: [Body] and [ContentType] of the put. *)
Record S3Object := mkS3Object {
  Body_ : Buffer;
  ContentType : jsstring
}.

(** Plain objects, as [toObject()] and the spread build them. *)
Inductive JsValue :=
  | VStr (s : jsstring)
  | VId (i : ObjectId).

#[global] Instance JsValue_eq_dec : EqDecision JsValue.
Proof. solve_decision. Defined.

Abbreviation JsObject := (gmap string JsValue).

(** Modelled from the spec: [toObject()] of a gallery document, the
    [_id] and the fields of the schema. *)
Definition toObject (d : Doc GalleryItem) : JsObject :=
  {[ "_id" := VId d.1;
     "monumentId" := VStr (monumentId d.2);
     "imgTitle" := VStr (imgTitle d.2);
     "image" := VStr (image d.2) ]}.

(** ** The world a handler runs in *)

(** Calls that leave the process, in the order they are issued. *)
Inductive Event :=
  | MonumentFind
  | MonumentFindSortLimit
  | MonumentFindById (id : ObjectId)
  | UserFindById (id : ObjectId)
  | GalleryFind (monument : jsstring)
  | GalleryFindById (id : ObjectId)
  | GalleryCreate
  | GallerySave (id : ObjectId)
  | GalleryFindByIdAndDelete (id : ObjectId)
  | S3PutObject (key : jsstring)
  | S3DeleteObject (key : jsstring)
  | S3GetSignedUrl (key : jsstring) (expiresIn : Z).

#[global] Instance Event_eq_dec : EqDecision Event.
Proof. solve_decision. Defined.

(** How an external call ends: it takes effect and returns, or it throws
    an error with a message and has no effect. *)
Inductive Outcome :=
  | Succeeds
  | Fails (message : jsstring).

(** [outcomes] lists how the coming external calls end, first call first
    (a call beyond the list succeeds); [randoms] lists the coming values of
    [Math.floor(Math.random() * 1000000)], each below 1000000 in a real
    run; [trace] is the log of the calls issued so far, oldest first. *)
Record World := mkWorld {
  monuments : gmap ObjectId Monument;
  users : gmap ObjectId User;
  galleries : gmap ObjectId GalleryItem;
  bucket : gmap jsstring S3Object;
  outcomes : list Outcome;
  randoms : list N;
  trace : list Event
}.

Definition with_galleries (g : gmap ObjectId GalleryItem) (w : World) : World :=
  mkWorld (monuments w) (users w) g (bucket w) (outcomes w) (randoms w) (trace w).
Definition with_bucket (b : gmap jsstring S3Object) (w : World) : World :=
  mkWorld (monuments w) (users w) (galleries w) b (outcomes w) (randoms w) (trace w).
Definition with_outcomes (o : list Outcome) (w : World) : World :=
  mkWorld (monuments w) (users w) (galleries w) (bucket w) o (randoms w) (trace w).
Definition with_randoms (r : list N) (w : World) : World :=
  mkWorld (monuments w) (users w) (galleries w) (bucket w) (outcomes w) r (trace w).
Definition with_trace (t : list Event) (w : World) : World :=
  mkWorld (monuments w) (users w) (galleries w) (bucket w) (outcomes w) (randoms w) t.

(** ** Computations that may throw *)

Inductive Result (A : Type) :=
  | Ok (a : A)
  | Throw (message : jsstring).
Arguments Ok {A} a.
Arguments Throw {A} message.

Definition M (A : Type) : Type := World → Result A * World.

#[global] Instance M_ret : MRet M := λ A a w, (Ok a, w).
#[global] Instance M_bind : MBind M := λ A B f c w,
  match c w with
  | (Ok a, w') => f a w'
  | (Throw e, w') => (Throw e, w')
  end.

Definition throw {A} (message : jsstring) : M A := λ w, (Throw message, w).

(** An awaited call to the document store or to S3: it is logged, then
    ends as the world says. *)
Definition call {A} (ev : Event) (effect : World → A * World) : M A := λ w,
  let w1 := with_outcomes (tail (outcomes w)) (with_trace (trace w ++ [ev]) w) in
  match head (outcomes w) with
  | Some (Fails e) => (Throw e, w1)
  | _ => let '(a, w2) := effect w1 in (Ok a, w2)
  end.

(** [Math.floor(Math.random() * 1000000)]. *)
Definition Math_floor_random_1000000 : M N := λ w,
  (Ok (default 0%N (head (randoms w))), with_randoms (tail (randoms w)) w).

(** The next external call does not throw; none of the coming calls
    throws. *)
Definition next_call_succeeds (w : World) : Prop :=
  ∀ e, head (outcomes w) ≠ Some (Fails e).

Definition all_succeed (outs : list Outcome) : Prop :=
  Forall (λ o, o = Succeeds) outs.

(** ** Responses *)

Inductive Body :=
  | Message (m : jsstring)
  | Monuments (l : list (Doc Monument))
  | Combined (monument : Doc Monument) (userName : jsstring)
  | GalleryDocument (d : Doc GalleryItem)
  | Objects (l : list JsObject)
  | Object (o : JsObject).

Record Response := mkResponse {
  statusCode : Z;
  body : Body
}.

(** [try { ... } catch (error) { ... }] around a handler body. *)
Definition handle (body : M Response) (on_error : jsstring → Response)
    : World → Response * World := λ w,
  match body w with
  | (Ok r, w') => (r, w')
  | (Throw e, w') => (on_error e, w')
  end.

(** ** Document store and object storage *)

Definition verified (d : Doc Monument) : bool := bool_decide (status d.2 = 1%Z).

(** [sort({ createdAt: -1 })]: newest first. *)
Definition newest_first (a b : Doc Monument) : Prop :=
  (createdAt b.2 ≤ createdAt a.2)%Z.

#[global] Instance newest_first_dec : RelDecision newest_first.
Proof. intros a b. unfold newest_first. apply _. Defined.

(** [Monument.find({ status: 1 })]. *)
Definition Monument_find_verified : M (list (Doc Monument)) :=
  call MonumentFind
    (λ w, (filter (λ d, verified d = true) (map_to_list (monuments w)), w)).

(** [Monument.find({ status: 1 }).sort({ createdAt: -1 }).limit(3)]. *)
Definition Monument_find_verified_sort_limit3 : M (list (Doc Monument)) :=
  call MonumentFindSortLimit
    (λ w, (take 3 (merge_sort newest_first
             (filter (λ d, verified d = true) (map_to_list (monuments w)))), w)).

Definition Monument_findById (id : ObjectId) : M (option (Doc Monument)) :=
  call (MonumentFindById id) (λ w, (pair id <$> monuments w !! id, w)).

Definition User_findById (id : ObjectId) : M (option (Doc User)) :=
  call (UserFindById id) (λ w, (pair id <$> users w !! id, w)).

(** [Gallery.find({ monumentId })], in the store's own order. *)
Definition Gallery_find (mid : jsstring) : M (list (Doc GalleryItem)) :=
  call (GalleryFind mid)
    (λ w, (filter (λ d, monumentId d.2 = mid) (map_to_list (galleries w)), w)).

Definition Gallery_findById (id : ObjectId) : M (option (Doc GalleryItem)) :=
  call (GalleryFindById id) (λ w, (pair id <$> galleries w !! id, w)).

(** [Gallery.create(fields)]: the new document gets an [_id] no document
    of the collection has. *)
Definition Gallery_create (g : GalleryItem) : M (Doc GalleryItem) :=
  call GalleryCreate
    (λ w, let id := fresh (dom (galleries w)) in
          ((id, g), with_galleries (<[id := g]> (galleries w)) w)).

(** [galleryItem.save()]. *)
Definition Gallery_save (d : Doc GalleryItem) : M unit :=
  call (GallerySave d.1)
    (λ w, (tt, with_galleries (<[d.1 := d.2]> (galleries w)) w)).

(** [Gallery.findByIdAndDelete(id)]: removes the document and returns it,
    or returns [null]. *)
Definition Gallery_findByIdAndDelete (id : ObjectId)
    : M (option (Doc GalleryItem)) :=
  call (GalleryFindByIdAndDelete id)
    (λ w, (pair id <$> galleries w !! id,
           with_galleries (delete id (galleries w)) w)).

(** [s3.send(new PutObjectCommand({ Bucket, Key, Body, ContentType }))]. *)
Definition s3_PutObject (key : jsstring) (data : Buffer) (type : jsstring)
    : M unit :=
  call (S3PutObject key)
    (λ w, (tt, with_bucket (<[key := mkS3Object data type]> (bucket w)) w)).

(** [s3.send(new DeleteObjectCommand({ Bucket, Key }))]. *)
Definition s3_DeleteObject (key : jsstring) : M unit :=
  call (S3DeleteObject key) (λ w, (tt, with_bucket (delete key (bucket w)) w)).

(** [getSignedUrl(s3, new GetObjectCommand({ Bucket, Key }), { expiresIn })]. *)
Definition getSignedUrl `{Platform} (key : jsstring) (expiresIn : Z)
    : M jsstring :=
  call (S3GetSignedUrl key expiresIn)
    (λ w, (signedUrl awsBucketName key expiresIn, w)).

(** ** galleryRoute.js *)

(** [file.originalname.split(".")[0]]. *)
Definition stem (originalname : jsstring) : jsstring :=
  default [] (split dot originalname !! 0%nat).

(** [compressAndSaveFile(file)]. *)
Definition compressAndSaveFile `{Platform} (file : File)
    : M (jsstring * Buffer) :=
  r ← Math_floor_random_1000000;
  let randomNumber := (r + 1000000)%N in
  if startsWith (mimetype file) (js "video") then
    mret (stem (originalname file) ++ Number_toString randomNumber ++ js ".mp4",
          buffer file)
  else
    match sharp_jpeg 30 (buffer file) with
    | Some compressedFile =>
        mret (stem (originalname file) ++ Number_toString randomNumber
                ++ js ".jpg",
              compressedFile)
    | None => throw (js "Error compressing file")
    end.

(** The answer of the catch blocks of the gallery routes, which log the
    error and do not send its message. *)
Definition internal_error : Response :=
  mkResponse 500 (Message (js "Internal Server Error")).

Definition internal_server_error (_ : jsstring) : Response := internal_error.

Definition missing_fields : Response :=
  mkResponse 400 (Message (js "Send all required fields: imgTitle, image")).

(** The assignments [galleryItem.image = ...] and
    [galleryItem.imgTitle = ...] on a loaded document. *)
Definition set_image (key : jsstring) (d : Doc GalleryItem) : Doc GalleryItem :=
  (d.1, mkGalleryItem (monumentId d.2) (imgTitle d.2) key).
Definition set_imgTitle (t : jsstring) (d : Doc GalleryItem) : Doc GalleryItem :=
  (d.1, mkGalleryItem (monumentId d.2) t (image d.2)).

(** [router.post("/:monumentId", upload.single("image"), ...)], on
    [request.params.monumentId], [request.body.imgTitle] and
    [request.file].  The two [missing_fields] branches are the test
    [!request.body.imgTitle || !request.file]. *)
Definition gallery_post `{Platform} (params_monumentId : jsstring)
    (body_imgTitle : option jsstring) (request_file : option File)
    : World → Response * World :=
  handle
    (match request_file with
     | Some file =>
         if truthy body_imgTitle then
           '(fileName, data) ← compressAndSaveFile file;
           _ ← s3_PutObject fileName data (mimetype file);
           galleryItem ← Gallery_create
             (mkGalleryItem params_monumentId (ToString body_imgTitle) fileName);
           mret (mkResponse 201 (GalleryDocument galleryItem))
         else mret missing_fields
     | None => mret missing_fields
     end)
    internal_server_error.

(** The spread [{ ...galleryItem.toObject(), imageUrl: url }]. *)
Definition with_imageUrl (d : Doc GalleryItem) (url : jsstring) : JsObject :=
  <["imageUrl" := VStr url]> (toObject d).

(** The loop [for (const galleryItem of galleryItems) { ... push ... }]. *)
Fixpoint sign_each `{Platform} (galleryItems : list (Doc GalleryItem))
    : M (list JsObject) :=
  match galleryItems with
  | [] => mret []
  | galleryItem :: others =>
      url ← getSignedUrl (image galleryItem.2) 3600;
      updated ← sign_each others;
      mret (with_imageUrl galleryItem url :: updated)
  end.

(** [router.get("/monument/:monumentId", ...)] of the gallery routes. *)
Definition gallery_get_by_monument `{Platform} (params_monumentId : jsstring)
    : World → Response * World :=
  handle
    (galleryItems ← Gallery_find params_monumentId;
     updatedGalleryItems ← sign_each galleryItems;
     mret (mkResponse 200 (Objects updatedGalleryItems)))
    internal_server_error.

Definition gallery_not_found : Response :=
  mkResponse 404 (Message (js "Gallery item not found")).

(** [router.get("/:id", ...)] of the gallery routes. *)
Definition gallery_get_one `{Platform} (id : ObjectId)
    : World → Response * World :=
  handle
    (found ← Gallery_findById id;
     match found with
     | None => mret gallery_not_found
     | Some galleryItem =>
         url ← getSignedUrl (image galleryItem.2) 3600;
         mret (mkResponse 200 (Object (with_imageUrl galleryItem url)))
     end)
    internal_server_error.

(** [router.put("/:id", upload.single("image"), ...)], on
    [request.params.id], [request.body.imgTitle] and [request.file]. *)
Definition gallery_put `{Platform} (id : ObjectId)
    (body_imgTitle : option jsstring) (request_file : option File)
    : World → Response * World :=
  handle
    (found ← Gallery_findById id;
     match found with
     | None => mret gallery_not_found
     | Some galleryItem =>
         let oldImageKey := image galleryItem.2 in
         galleryItem ← match request_file with
                       | Some file =>
                           '(fileName, data) ← compressAndSaveFile file;
                           _ ← s3_PutObject fileName data (mimetype file);
                           let galleryItem := set_image fileName galleryItem in
                           _ ← s3_DeleteObject oldImageKey;
                           mret galleryItem
                       | None => mret galleryItem
                       end;
         let galleryItem := if truthy body_imgTitle
                            then set_imgTitle (ToString body_imgTitle) galleryItem
                            else galleryItem in
         _ ← Gallery_save galleryItem;
         mret (mkResponse 200 (GalleryDocument galleryItem))
     end)
    internal_server_error.

Definition deleted_successfully : Response :=
  mkResponse 200 (Message (js "Gallery item deleted successfully")).

(** [router.delete("/:id", ...)]. *)
Definition gallery_delete (id : ObjectId) : World → Response * World :=
  handle
    (found ← Gallery_findByIdAndDelete id;
     match found with
     | None => mret gallery_not_found
     | Some galleryItem =>
         _ ← s3_DeleteObject (image galleryItem.2);
         mret deleted_successfully
     end)
    internal_server_error.

(** ** publicRoute.js *)

Definition error_message (e : jsstring) : Response :=
  mkResponse 500 (Message e).

(** [router.get("/", ...)]. *)
Definition public_get_all : World → Response * World :=
  handle
    (monument ← Monument_find_verified;
     mret (mkResponse 200 (Monuments monument)))
    error_message.

(** [router.get("/latest3/", ...)]. *)
Definition public_latest3 : World → Response * World :=
  handle
    (monuments ← Monument_find_verified_sort_limit3;
     mret (mkResponse 200 (Monuments monuments)))
    error_message.

(** Reading a property of [null] throws a [TypeError]. *)
Definition read_of_null (property : string) : jsstring :=
  js "Cannot read properties of null (reading '" ++ js property ++ js "')".

(** [router.get("/:id", ...)]: [monument.user] and [user.name] are read
    without a test for [null]. *)
Definition public_get_one (id : ObjectId) : World → Response * World :=
  handle
    (monument ← Monument_findById id;
     match monument with
     | None => throw (read_of_null "user")
     | Some monument =>
         user ← User_findById (user monument.2);
         match user with
         | None => throw (read_of_null "name")
         | Some user => mret (mkResponse 200 (Combined monument (name user.2)))
         end
     end)
    error_message.

(** [router.get("/monument/:monumentId", ...)] of the public routes. *)
Definition public_get_gallery `{Platform} (params_monumentId : jsstring)
    : World → Response * World :=
  handle
    (galleryItems ← Gallery_find params_monumentId;
     updatedGalleryItems ← sign_each galleryItems;
     mret (mkResponse 200 (Objects updatedGalleryItems)))
    internal_server_error.

(** ** The Placedetails page *)

Module Placedetails.

(** [handleMapClick(loc)]: the address the window is sent to. *)
Definition handleMapClick (loc : option jsstring) : jsstring :=
  js "https://maps.google.com/?q=" ++ ToString loc.

(** [isValidLatLong(location)]. *)
Definition isValidLatLong (location : jsstring) : bool :=
  let lat := split comma location !! 0%nat in
  let long := split comma location !! 1%nat in
  if negb (isNaN_parseFloat lat) && negb (isNaN_parseFloat long) then true
  else false.

(** The elements of the map and gallery sections. *)
Inductive Element :=
  | Map (latitude longitude : option jsstring)
  | MapsButton (onClick : jsstring)
  | ReactPlayer (url : option JsValue)
  | Img (src : option JsValue).

(** The [div.map] block: a [Map] when the location is truthy and valid,
    nothing otherwise. *)
Definition map_block (location : option jsstring) : list Element :=
  match location with
  | Some loc =>
      if truthy location && isValidLatLong loc
      then [Map (split comma loc !! 0%nat) (split comma loc !! 1%nat)]
      else []
  | None => []
  end.

(** The [div.map-btn] block: the button, whose click goes to
    [handleMapClick(combinedData.monument.location)]. *)
Definition map_button (location : option jsstring) : list Element :=
  [MapsButton (handleMapClick location)].

Definition map_section (location : option jsstring) : list Element :=
  map_block location ++ map_button location.

(** [item.image.endsWith(".mp4") ? <ReactPlayer url={item.imageUrl} .../>
    : <img src={item.imageUrl} .../>], for an item of the response;
    [None] when [item.image] is not a string and the call throws. *)
Definition gallery_element (item : JsObject) : option Element :=
  match item !! "image" with
  | Some (VStr image) =>
      Some (if endsWith image (js ".mp4")
            then ReactPlayer (item !! "imageUrl")
            else Img (item !! "imageUrl"))
  | _ => None
  end.

(** [galleryImages.filter(item => item.monumentId === placeId).map(...)]. *)
Definition gallery_section (placeId : jsstring) (galleryImages : list JsObject)
    : list (option Element) :=
  gallery_element
    <$> filter (λ item, item !! "monumentId" = Some (VStr placeId)) galleryImages.

(** What a handler of the page does, in order. *)
Inductive Effect :=
  | Confirm (text : jsstring)
  | AxiosPut (url : jsstring)
  | Alert (text : jsstring)
  | Navigate (path : jsstring).

(** How a request of the page ends: with [res.data.message], or with
    [err.message]. *)
Inductive Reply :=
  | Resolved (message : option jsstring)
  | Rejected (message : jsstring).

(** [clickToVerify(Id)], with the answer [cfm] to the confirm dialog. *)
Definition clickToVerify (Id : jsstring) (cfm : bool) (reply : Reply)
    : list Effect :=
  Confirm (js "Confirm verification")
  :: (if negb cfm then []
      else AxiosPut (js "admin/verify/" ++ Id)
           :: match reply with
              | Resolved message =>
                  [Alert (ToString message);
                   Navigate (js "/manage/ListMonuments")]
              | Rejected message =>
                  [Alert (js "Error verifing : " ++ message)]
              end).

(** [clickToUnverify(Id)]. *)
Definition clickToUnverify (Id : jsstring) (cfm : bool) (reply : Reply)
    : list Effect :=
  Confirm (js "Do you want to edit the verification")
  :: (if negb cfm then []
      else AxiosPut (js "admin/unverify/" ++ Id)
           :: match reply with
              | Resolved message =>
                  [Alert (ToString message);
                   Navigate (js "/manage/ListMonuments")]
              | Rejected message =>
                  [Alert (js "Error verifing : " ++ message)]
              end).

(** The [div.verify] block: for an administrator one button, [Unverify]
    when [status == 1] and [Verify] otherwise; [false] for anyone else.
    The result is what a click on the block does. *)
Definition verify_click (isAdmin : bool) (status : Z) (_id : jsstring)
    : option (bool → Reply → list Effect) :=
  if isAdmin then
    Some (if bool_decide (status = 1%Z) then clickToUnverify _id
          else clickToVerify _id)
  else None.

(** A location that splits on "," into a first and a second piece that
    both parse as numbers; any other location does not parse. *)
Definition two_numeric_components (location : jsstring) : Prop :=
  ∃ lat long rest,
    split comma location = lat :: long :: rest
    ∧ isNaN_parseFloat (Some lat) = false
    ∧ isNaN_parseFloat (Some long) = false.

(** The state of the page that its render reads. *)
Record Page := mkPage {
  loading : bool;
  combinedData : option Body;
  galleryImages : list JsObject
}.

(** The state at mount: [useState(true)], [useState(null)],
    [useState([])]. *)
Definition mounted : Page := mkPage true None [].

(** The two requests of the page settle: [public/${placeId}] with data or
    with an error, [public/monument/${placeId}] likewise. *)
Inductive Arrival :=
  | CombinedArrived (data : Body)
  | CombinedFailed
  | GalleryArrived (items : list JsObject)
  | GalleryFailed.

(** The [then], [catch] and [finally] callbacks of the two effects. *)
Definition arrive (p : Page) (a : Arrival) : Page :=
  match a with
  | CombinedArrived data => mkPage (loading p) (Some data) (galleryImages p)
  | CombinedFailed => p
  | GalleryArrived items => mkPage false (combinedData p) items
  | GalleryFailed => mkPage false (combinedData p) (galleryImages p)
  end.

(** The top of the render:
    [loading ? <loader/> : combinedData && (<>...</>)]. *)
Inductive View :=
  | Loader
  | Blank
  | Details (data : Body) (gallery : list (option Element)).

Definition render (placeId : jsstring) (p : Page) : View :=
  if loading p then Loader
  else match combinedData p with
       | Some data => Details data (gallery_section placeId (galleryImages p))
       | None => Blank
       end.

Definition is_gallery (a : Arrival) : bool :=
  match a with
  | GalleryArrived _ | GalleryFailed => true
  | _ => false
  end.

(** The data of the last [public/${placeId}] request that succeeded. *)
Definition last_combined (arrivals : list Arrival) : option Body :=
  foldl (λ acc a, match a with CombinedArrived d => Some d | _ => acc end)
    None arrivals.

End Placedetails.

(** ** The Home page *)

Module Home.

(** [deleteMonument(id)] on the rows [data], with the way the delete
    request ends: the new rows, and the alert if there is one. *)
Definition deleteMonument (id : ObjectId) (reply : Outcome)
    (data : list (Doc Monument)) : list (Doc Monument) * option jsstring :=
  match reply with
  | Succeeds => (filter (λ m, m.1 ≠ id) data, None)
  | Fails _ => (data, Some (js "Delete Error: Could not be deleted"))
  end.

(** The rows of the table: [index + 1] and the monument. *)
Definition rows (data : list (Doc Monument)) : list (nat * Doc Monument) :=
  imap (λ index monument, (index + 1, monument)) data.

End Home.

(** ** Scenarios *)

Module Scenario.

(** A platform to run the handlers on: the encoder refuses an empty
    buffer and keeps the first byte of any other. *)
Definition platform : Platform := {|
  awsBucketName := js "monuments";
  sharp_jpeg := λ _ input, match input with [] => None | b :: _ => Some [b] end;
  signedUrl := λ bucket key expiresIn,
    js "https://" ++ bucket ++ js ".s3/" ++ key ++ js "?X-Amz-Expires="
      ++ Number_toString (Z.to_N expiresIn)
|}.

Definition monument (t : string) (loc : string) (st : Z) (u : ObjectId)
    (created : Z) : Monument :=
  mkMonument (js t) [] [] [] [] (js loc) [] [] [] [] st u created.

(** Five monuments with status 1, 0, 1, 1, 0, created one after the
    other. *)
Definition five_monuments : gmap ObjectId Monument :=
  list_to_map
    [(1%N, monument "Taj Mahal" "27.1751,78.0421" 1 1%N 100);
     (2%N, monument "Qutb Minar" "" 0 1%N 200);
     (3%N, monument "Hampi" "" 1 1%N 300);
     (4%N, monument "Konark" "" 1 1%N 400);
     (5%N, monument "Ajanta" "" 0 1%N 500)].

Definition empty_world : World := mkWorld ∅ ∅ ∅ ∅ [] [] [].

Definition five_world : World :=
  mkWorld five_monuments {[ 1%N := mkUser (js "admin") ]} ∅ ∅ [] [] [].

(** One gallery item and its object. *)
Definition fort : GalleryItem :=
  mkGalleryItem (js "m1") (js "Fort") (js "fort1000007.jpg").

Definition fort_world (outs : list Outcome) : World :=
  mkWorld ∅ ∅ {[ 7%N := fort ]}
    {[ js "fort1000007.jpg" := mkS3Object [Byte.x01] (js "image/jpeg") ]}
    outs [42%N] [].

Definition clip : File :=
  mkFile (js "clip.final.mov") (js "video/quicktime") [Byte.x0a; Byte.x0b].

Definition photo : File :=
  mkFile (js "gate.png") (js "image/png") [Byte.x0c; Byte.x0d].

End Scenario.

(** A gallery item as the two read routes return it: the stored fields
    and the URL signed for its key with [expiresIn] 3600. *)
Definition signed `{Platform} (d : Doc GalleryItem) : JsObject :=
  with_imageUrl d (signedUrl awsBucketName (image d.2) 3600).

(** The first [n] of the coming external calls do not throw. *)
Definition calls_succeed (n : nat) (w : World) : Prop :=
  all_succeed (take n (outcomes w)).

(** Every record of the gallery has an object under its key. *)
Definition no_dangling (w : World) : Prop :=
  ∀ id g, galleries w !! id = Some g → is_Some (bucket w !! image g).

(** The documents of two worlds are the same. *)
Definition same_records (w w' : World) : Prop :=
  monuments w' = monuments w ∧ users w' = users w
  ∧ galleries w' = galleries w.

(** The stored data of two worlds are the same. *)
Definition same_data (w w' : World) : Prop :=
  monuments w' = monuments w ∧ users w' = users w
  ∧ galleries w' = galleries w ∧ bucket w' = bucket w.

(** ** Statements of the specification that the handlers are compared with *)

Module Specified.

(** List-latest as specified: the three newest monuments, whatever their
    status. *)
Definition latest3 (w : World) : list (Doc Monument) :=
  take 3 (merge_sort newest_first (map_to_list (monuments w))).

Definition latest3_ignores_status (w : World) : Prop :=
  body (public_latest3 w).1 = Monuments (latest3 w).

(** Delete as specified: the storage delete is issued before the call
    that removes the record. *)
Definition storage_delete_first (id : ObjectId) (key : jsstring)
    (calls : list Event) : Prop :=
  ∃ i j : nat, calls !! i = Some (S3DeleteObject key)
    ∧ calls !! j = Some (GalleryFindByIdAndDelete id) ∧ i < j.

(** Get-one as specified: an id that resolves to no monument is answered
    with not-found. *)
Definition get_one_not_found (id : ObjectId) (w : World) : Prop :=
  monuments w !! id = None → statusCode (public_get_one id w).1 = 404%Z.

End Specified.




(** Two items with different keys, each with its object. *)
Definition gate : GalleryItem :=
  mkGalleryItem (js "m1") (js "Gate") (js "gate1000042.jpg").

Definition two_items_world : World :=
  mkWorld ∅ ∅ (<[9%N := gate]> {[ 7%N := Scenario.fort ]})
    (<[js "gate1000042.jpg" := mkS3Object [Byte.x0c] (js "image/jpeg")]>
       {[ js "fort1000007.jpg" := mkS3Object [Byte.x01] (js "image/jpeg") ]})
    [] [] [].

(** * Properties *)

(** ** Strings *)

Section strings.
Implicit Types s t ext : jsstring.

Lemma endsWith_app s ext : endsWith (s ++ ext) ext = true.
Proof. apply bool_decide_eq_true. by apply suffix_app_r. Qed.

Lemma endsWith_snoc_ne s t (x y : N) :
  x ≠ y → endsWith (s ++ [x]) (t ++ [y]) = false.
Proof.
  intros Hne. apply bool_decide_eq_false. intros Hsuf.
  apply suffix_snoc_inv_1 in Hsuf. congruence.
Qed.

Lemma endsWith_jpg_mp4 s : endsWith (s ++ js ".jpg") (js ".mp4") = false.
Proof.
  change (js ".jpg") with (js ".jp" ++ [103%N]).
  change (js ".mp4") with (js ".mp" ++ [52%N]).
  rewrite app_assoc. by apply endsWith_snoc_ne.
Qed.

Lemma endsWith_mp4_jpg s : endsWith (s ++ js ".mp4") (js ".jpg") = false.
Proof.
  change (js ".jpg") with (js ".jp" ++ [103%N]).
  change (js ".mp4") with (js ".mp" ++ [52%N]).
  rewrite app_assoc. by apply endsWith_snoc_ne.
Qed.

Lemma uint_codes_digits (u : Decimal.uint) :
  Forall (λ c, isDigit c = true) (uint_codes u).
Proof. induction u; simpl; constructor; done. Qed.

Lemma uint_codes_nil (u : Decimal.uint) : uint_codes u = [] → u = Nil.
Proof. by destruct u. Qed.

Lemma Number_toString_digits (n : N) :
  Forall (λ c, isDigit c = true) (Number_toString n).
Proof. apply uint_codes_digits. Qed.

Lemma Number_toString_nonempty (n : N) : Number_toString n ≠ [].
Proof.
  unfold Number_toString. intros Hnil. apply uint_codes_nil in Hnil.
  destruct n as [|p]; [done|]. simpl in Hnil.
  by apply (DecimalPos.Unsigned.to_uint_nonnil p).
Qed.

(** The first piece of a split is the text before the first separator. *)
Lemma split_first (sep : N) s :
  ∃ piece pieces, split sep s = piece :: pieces ∧ (sep ∉ piece)
    ∧ ((pieces = [] ∧ s = piece)
       ∨ (pieces ≠ [] ∧ ∃ rest, s = piece ++ sep :: rest)).
Proof.
  induction s as [|c s (piece & pieces & Hs & Hnot & Hcase)]; simpl.
  - exists [], []. split_and!; [done|apply not_elem_of_nil|by left].
  - destruct (N.eqb_spec c sep) as [->|Hne].
    + exists [], (split sep s). split_and!; [done|apply not_elem_of_nil|].
      right. split; [by rewrite Hs|by exists s].
    + rewrite Hs. exists (c :: piece), pieces.
      split_and!; [done|by apply not_elem_of_cons|].
      destruct Hcase as [[-> ->]|[Hp [rest ->]]]; [by left|].
      right. split; [done|by exists rest].
Qed.

Lemma stem_prefix s : stem s `prefix_of` s.
Proof.
  unfold stem. destruct (split_first dot s) as (p & ps & -> & _ & Hcase).
  simpl. destruct Hcase as [[_ ->]|[_ [rest ->]]]; [done|].
  by apply prefix_app_r.
Qed.

Lemma stem_no_dot s : dot ∉ stem s.
Proof.
  unfold stem. by destruct (split_first dot s) as (p & ps & -> & Hnot & _).
Qed.
End strings.

(** ** The compressor *)

Section compressor.
Context `{Platform}.

(** C6.  For every uploaded file the name returned by
    [compressAndSaveFile] is the stem of the original name (its text
    before the first "."), then the decimal digits of the random number,
    then a fixed extension.  When the media type starts with "video" the
    call returns, the bytes are the input and the extension is ".mp4";
    otherwise the bytes are what the JPEG encoder returns at quality 30
    and the extension is ".jpg". *)
Theorem compressAndSaveFile_result (file : File) (w : World) :
  let suffix := Number_toString (default 0%N (head (randoms w)) + 1000000) in
  let w' := with_randoms (tail (randoms w)) w in
  (Forall (λ c, isDigit c = true) suffix ∧ suffix ≠ []
     ∧ stem (originalname file) `prefix_of` originalname file
     ∧ dot ∉ stem (originalname file))
  ∧ (startsWith (mimetype file) (js "video") = true →
       let fileName := stem (originalname file) ++ suffix ++ js ".mp4" in
       compressAndSaveFile file w = (Ok (fileName, buffer file), w')
       ∧ endsWith fileName (js ".mp4") = true)
  ∧ (startsWith (mimetype file) (js "video") = false →
       ∀ encoded, sharp_jpeg 30 (buffer file) = Some encoded →
         let fileName := stem (originalname file) ++ suffix ++ js ".jpg" in
         compressAndSaveFile file w = (Ok (fileName, encoded), w')
         ∧ endsWith fileName (js ".jpg") = true).
Proof.
  intros suffix w'. split_and!.
  - apply Number_toString_digits.
  - apply Number_toString_nonempty.
  - apply stem_prefix.
  - apply stem_no_dot.
  - intros Hvideo fileName. split.
    + unfold compressAndSaveFile, Math_floor_random_1000000, mbind, M_bind.
      by rewrite Hvideo.
    + unfold fileName. rewrite app_assoc. apply endsWith_app.
  - intros Hvideo encoded Henc fileName. split.
    + unfold compressAndSaveFile, Math_floor_random_1000000, mbind, M_bind.
      by rewrite Hvideo, Henc.
    + unfold fileName. rewrite app_assoc. apply endsWith_app.
Qed.

(** When the encoder throws, the compressor throws its own error and
    returns no pair. *)
Lemma compressAndSaveFile_encoder_error (file : File) (w : World) :
  startsWith (mimetype file) (js "video") = false →
  sharp_jpeg 30 (buffer file) = None →
  compressAndSaveFile file w
    = (Throw (js "Error compressing file"), with_randoms (tail (randoms w)) w).
Proof.
  intros Hvideo Henc.
  unfold compressAndSaveFile, Math_floor_random_1000000, mbind, M_bind.
  by rewrite Hvideo, Henc.
Qed.

(** The compressor touches nothing but the random source. *)
Lemma compressAndSaveFile_world (file : File) (w w' : World) r :
  compressAndSaveFile file w = (r, w') → w' = with_randoms (tail (randoms w)) w.
Proof.
  unfold compressAndSaveFile, Math_floor_random_1000000, mbind, M_bind, mret,
    M_ret, throw.
  destruct (startsWith _ _); [congruence|].
  destruct (sharp_jpeg _ _); congruence.
Qed.

(** The extension of a returned key tells the kind of the file. *)
Lemma compressAndSaveFile_extension (file : File) (w w' : World) fileName data :
  compressAndSaveFile file w = (Ok (fileName, data), w') →
  endsWith fileName (js ".mp4") = startsWith (mimetype file) (js "video")
  ∧ endsWith fileName (js ".jpg") = negb (startsWith (mimetype file) (js "video")).
Proof.
  unfold compressAndSaveFile, Math_floor_random_1000000, mbind, M_bind, mret,
    M_ret, throw.
  destruct (startsWith _ _).
  - intros [= <- _ _]. rewrite !app_assoc.
    by rewrite endsWith_app, endsWith_mp4_jpg.
  - destruct (sharp_jpeg _ _); [|done].
    intros [= <- _ _]. rewrite !app_assoc.
    by rewrite endsWith_app, endsWith_jpg_mp4.
Qed.
End compressor.

Lemma compressAndSaveFile_result_witness :
  let w := Scenario.fort_world [] in
  @compressAndSaveFile Scenario.platform Scenario.clip w
    = (Ok (js "clip1000042.mp4", buffer Scenario.clip), with_randoms [] w)
  ∧ @compressAndSaveFile Scenario.platform Scenario.photo w
    = (Ok (js "gate1000042.jpg", [Byte.x0c]), with_randoms [] w).
Proof.
  intros w. split.
  - apply (proj1 (proj2 (@compressAndSaveFile_result Scenario.platform
                           Scenario.clip w))).
    reflexivity.
  - apply (proj2 (proj2 (@compressAndSaveFile_result Scenario.platform
                           Scenario.photo w))); reflexivity.
Defined.

(** ** Running a handler *)

Lemma call_succeeds {A} (ev : Event) (effect : World → A * World) (w : World) :
  next_call_succeeds w →
  call ev effect w
  = (Ok (effect (with_outcomes (tail (outcomes w))
                   (with_trace (trace w ++ [ev]) w))).1,
     (effect (with_outcomes (tail (outcomes w))
                (with_trace (trace w ++ [ev]) w))).2).
Proof.
  intros Hok. unfold call.
  destruct (head (outcomes w)) as [[|e]|] eqn:Hhd;
    try by destruct (effect _).
  by destruct (Hok e).
Qed.

Lemma call_fails {A} (ev : Event) (effect : World → A * World) (w : World) e :
  head (outcomes w) = Some (Fails e) →
  call ev effect w
  = (Throw e, with_outcomes (tail (outcomes w)) (with_trace (trace w ++ [ev]) w)).
Proof. intros Hhd. unfold call. by rewrite Hhd. Qed.

(** ** Public routes: the latest three *)

#[local] Instance newest_first_total : Total newest_first.
Proof. intros a b. unfold newest_first. lia. Qed.

#[local] Instance newest_first_trans : Transitive newest_first.
Proof. intros a b c. unfold newest_first. lia. Qed.

(** C1, as the route is written.  Whenever the query succeeds the answer is
    200 with at most three monuments, all of status 1 and all of the
    store, newest first; together with some [rest] they are exactly the
    monuments of status 1, and no monument of [rest] is newer than a
    returned one.  On the five monuments of status 1, 0, 1, 1, 0 the
    answer is the fourth, the third and the first. *)
Theorem public_latest3_verified_only :
  (∀ w : World, next_call_succeeds w →
     ∃ l rest,
       (public_latest3 w).1 = mkResponse 200 (Monuments l)
       ∧ length l = 3 `min` length (filter (λ d, verified d = true)
                                     (map_to_list (monuments w)))
       ∧ l ++ rest ≡ₚ filter (λ d, verified d = true) (map_to_list (monuments w))
       ∧ (∀ d, d ∈ l → status d.2 = 1%Z ∧ monuments w !! d.1 = Some d.2)
       ∧ Sorted newest_first l
       ∧ (∀ a b, a ∈ l → b ∈ rest → (createdAt b.2 ≤ createdAt a.2)%Z))
  ∧ ∃ l, (public_latest3 Scenario.five_world).1 = mkResponse 200 (Monuments l)
         ∧ fst <$> l = [4%N; 3%N; 1%N].
Proof.
  split; [|by eexists; split; vm_compute].
  intros w Hok.
  set (all := filter (λ d, verified d = true) (map_to_list (monuments w))).
  set (sorted := merge_sort newest_first all).
  assert (Hperm : sorted ≡ₚ all) by apply merge_sort_Permutation.
  assert (Hsorted : StronglySorted newest_first (take 3 sorted ++ drop 3 sorted)).
  { rewrite take_drop. by apply StronglySorted_merge_sort; apply _. }
  exists (take 3 sorted), (drop 3 sorted). split_and!.
  - unfold public_latest3, handle, Monument_find_verified_sort_limit3, mbind,
      M_bind. by rewrite call_succeeds.
  - rewrite length_take, (Permutation_length Hperm). done.
  - by rewrite take_drop.
  - intros d Hd. apply (subseteq_take 3 sorted) in Hd. rewrite Hperm in Hd.
    apply list_elem_of_filter in Hd as [Hv Hd].
    apply bool_decide_eq_true in Hv.
    by apply elem_of_map_to_list' in Hd.
  - apply StronglySorted_Sorted. by eapply StronglySorted_app_1_l.
  - intros a b Ha Hb. change (newest_first a b).
    by eapply StronglySorted_app_1_elem_of.
Qed.

Lemma public_latest3_verified_only_witness :
  ∃ l rest,
    (public_latest3 Scenario.five_world).1 = mkResponse 200 (Monuments l)
    ∧ length l = 3 `min` length (filter (λ d, verified d = true)
                   (map_to_list (monuments Scenario.five_world)))
    ∧ l ++ rest ≡ₚ filter (λ d, verified d = true)
                     (map_to_list (monuments Scenario.five_world))
    ∧ (∀ d, d ∈ l → status d.2 = 1%Z
              ∧ monuments Scenario.five_world !! d.1 = Some d.2)
    ∧ Sorted newest_first l
    ∧ (∀ a b, a ∈ l → b ∈ rest → (createdAt b.2 ≤ createdAt a.2)%Z).
Proof.
  apply (proj1 public_latest3_verified_only Scenario.five_world).
  intros e. vm_compute. discriminate.
Defined.

(** C1 as specified fails: of the five monuments the specification returns
    the fifth, fourth and third, and the route does not. *)
Lemma latest3_ignores_status_refuted :
  fst <$> Specified.latest3 Scenario.five_world = [5%N; 4%N; 3%N]
  ∧ ¬ Specified.latest3_ignores_status Scenario.five_world.
Proof.
  split; [by vm_compute|].
  unfold Specified.latest3_ignores_status. vm_compute. discriminate.
Qed.

(** ** Public routes: one monument *)

Ltac run :=
  unfold handle, call, mbind, M_bind, mret, M_ret, throw; simpl.

(** C3, as the route is written.  An id that resolves to no monument is
    answered with status 500 and a message, not with 404; so is a monument
    whose user does not resolve, and then nothing of the monument is in the
    answer.  In both cases the stored data are as before.  When the store
    answers, the message is that of the read of [null]. *)
Theorem public_get_one_unresolved (id : ObjectId) (w : World) :
  (monuments w !! id = None
   ∨ ∃ m, monuments w !! id = Some m ∧ users w !! user m = None) →
  let '(response, w') := public_get_one id w in
  (∃ e, response = mkResponse 500 (Message e))
  ∧ monuments w' = monuments w ∧ users w' = users w
  ∧ galleries w' = galleries w ∧ bucket w' = bucket w
  ∧ (outcomes w = [] →
       response = mkResponse 500
         (Message (read_of_null
                     (if monuments w !! id is Some _ then "name" else "user")))).
Proof.
  destruct w as [mons us gal bk outs rnd tr]. simpl.
  unfold public_get_one, Monument_findById, User_findById. run.
  intros [Hnone|(m & Hm & Hu)].
  - rewrite Hnone.
    destruct outs as [|[|e] outs]; simpl; split_and!; by eauto.
  - rewrite Hm.
    destruct outs as [|[|e] [|[|e'] outs]]; simpl; rewrite ?Hu; simpl;
      split_and!; by eauto.
Qed.

Lemma public_get_one_unresolved_witness :
  let '(response, w') := public_get_one 9%N Scenario.five_world in
  (∃ e, response = mkResponse 500 (Message e))
  ∧ monuments w' = monuments Scenario.five_world
  ∧ users w' = users Scenario.five_world
  ∧ galleries w' = galleries Scenario.five_world
  ∧ bucket w' = bucket Scenario.five_world
  ∧ (outcomes Scenario.five_world = [] →
       response = mkResponse 500
         (Message (read_of_null
                     (if monuments Scenario.five_world !! 9%N is Some _
                      then "name" else "user")))).
Proof.
  apply (public_get_one_unresolved 9%N Scenario.five_world).
  left. reflexivity.
Defined.

(** C3 as specified fails: no monument has id 9, and the answer is 500. *)
Lemma get_one_not_found_refuted :
  ¬ Specified.get_one_not_found 9%N Scenario.five_world.
Proof.
  unfold Specified.get_one_not_found. intros Hclaim.
  specialize (Hclaim eq_refl). vm_compute in Hclaim. discriminate.
Qed.

(** When the monument and its user resolve and both reads succeed, the
    answer is the composite. *)
Lemma public_get_one_found (id : ObjectId) (w : World) m u :
  monuments w !! id = Some m → users w !! user m = Some u →
  outcomes w = [] →
  (public_get_one id w).1 = mkResponse 200 (Combined (id, m) (name u)).
Proof.
  destruct w as [mons us gal bk outs rnd tr]. simpl. intros Hm Hu ->.
  unfold public_get_one, Monument_findById, User_findById. run.
  rewrite Hm. simpl. by rewrite Hu.
Qed.

(** ** Gallery routes: delete *)

(** C2, as the route is written.  When the record exists, the first call
    removes it from the document store ([findByIdAndDelete]); the delete of
    the storage object is issued after that, with the key of the removed
    record.  Either the first call throws and nothing has changed, or both
    calls are issued in this order and the record is gone whatever the
    storage delete does.  When both succeed the answer is 200 and the
    object is gone too. *)
Theorem gallery_delete_record_first (id : ObjectId) (w : World) g :
  galleries w !! id = Some g →
  let '(response, w') := gallery_delete id w in
  ((trace w' = trace w ++ [GalleryFindByIdAndDelete id]
    ∧ response = internal_error
    ∧ galleries w' = galleries w ∧ bucket w' = bucket w)
   ∨ (trace w' = trace w ++ [GalleryFindByIdAndDelete id; S3DeleteObject (image g)]
      ∧ galleries w' = delete id (galleries w)
      ∧ ((response = deleted_successfully
          ∧ bucket w' = delete (image g) (bucket w))
         ∨ (response = internal_error ∧ bucket w' = bucket w))))
  ∧ (outcomes w = [] →
       response = deleted_successfully
       ∧ galleries w' = delete id (galleries w)
       ∧ bucket w' = delete (image g) (bucket w)).
Proof.
  destruct w as [mons us gal bk outs rnd tr]. simpl. intros Hg.
  unfold gallery_delete, Gallery_findByIdAndDelete, s3_DeleteObject. run.
  destruct outs as [|[|e] [|[|e'] outs]]; simpl; rewrite ?Hg; simpl;
    rewrite <-?app_assoc; simpl; split; try done; eauto 10.
Qed.

Lemma gallery_delete_record_first_witness :
  let w := Scenario.fort_world [] in
  let '(response, w') := gallery_delete 7%N w in
  ((trace w' = trace w ++ [GalleryFindByIdAndDelete 7%N]
    ∧ response = internal_error
    ∧ galleries w' = galleries w ∧ bucket w' = bucket w)
   ∨ (trace w' = trace w ++ [GalleryFindByIdAndDelete 7%N;
                             S3DeleteObject (image Scenario.fort)]
      ∧ galleries w' = delete 7%N (galleries w)
      ∧ ((response = deleted_successfully
          ∧ bucket w' = delete (image Scenario.fort) (bucket w))
         ∨ (response = internal_error ∧ bucket w' = bucket w))))
  ∧ (outcomes w = [] →
       response = deleted_successfully
       ∧ galleries w' = delete 7%N (galleries w)
       ∧ bucket w' = delete (image Scenario.fort) (bucket w)).
Proof.
  apply (gallery_delete_record_first 7%N (Scenario.fort_world []) Scenario.fort).
  reflexivity.
Defined.

(** C2 as specified fails: in the calls of a delete of the stored item the
    storage delete does not come before the removal of the record. *)
Lemma storage_delete_first_refuted :
  ¬ Specified.storage_delete_first 7%N (image Scenario.fort)
      (trace (gallery_delete 7%N (Scenario.fort_world [])).2).
Proof.
  intros (i & j & Hi & Hj & Hlt).
  destruct i as [|[|i]], j as [|[|j]]; try discriminate Hi; try discriminate Hj; lia.
Qed.

(** C9.  When the record exists and its removal succeeds but the storage
    delete throws, the answer is 500, the record is no longer in the
    document store although the object still is in the bucket, and the same
    delete asked again does not succeed: it is answered with not-found
    whenever the store answers. *)
Theorem gallery_delete_storage_failure (id : ObjectId) (w : World) g e rest :
  galleries w !! id = Some g →
  outcomes w = Succeeds :: Fails e :: rest →
  let '(response, w') := gallery_delete id w in
  response = mkResponse 500 (Message (js "Internal Server Error"))
  ∧ galleries w' !! id = None
  ∧ galleries w' ≠ galleries w
  ∧ bucket w' = bucket w
  ∧ statusCode (gallery_delete id w').1 ≠ 200%Z
  ∧ (next_call_succeeds w' → (gallery_delete id w').1 = gallery_not_found).
Proof.
  destruct w as [mons us gal bk outs rnd tr]. simpl. intros Hg ->.
  unfold gallery_delete, Gallery_findByIdAndDelete, s3_DeleteObject. run.
  rewrite Hg. simpl. split_and!; try done.
  - apply lookup_delete_eq.
  - intros Heq. rewrite <-Heq, lookup_delete_eq in Hg. discriminate.
  - destruct rest as [|[|e'] rest]; simpl; rewrite ?lookup_delete_eq; done.
  - unfold next_call_succeeds. simpl. intros Hok.
    destruct rest as [|[|e'] rest]; simpl; rewrite ?lookup_delete_eq; try done.
    by destruct (Hok e').
Qed.

Lemma gallery_delete_storage_failure_witness :
  let w := Scenario.fort_world [Succeeds; Fails (js "SlowDown")] in
  let '(response, w') := gallery_delete 7%N w in
  response = mkResponse 500 (Message (js "Internal Server Error"))
  ∧ galleries w' !! 7%N = None
  ∧ galleries w' ≠ galleries w
  ∧ bucket w' = bucket w
  ∧ statusCode (gallery_delete 7%N w').1 ≠ 200%Z
  ∧ (next_call_succeeds w' → (gallery_delete 7%N w').1 = gallery_not_found).
Proof.
  apply (gallery_delete_storage_failure 7%N
           (Scenario.fort_world [Succeeds; Fails (js "SlowDown")])
           Scenario.fort (js "SlowDown") []); reflexivity.
Defined.

(** ** Gallery routes: create *)

(** Case analysis on how the coming external calls end. *)
Ltac next_outcome :=
  match goal with
  | |- context [head ?o] =>
      is_var o;
      match type of o with list Outcome => destruct o as [|[|?] ?]; simpl end
  end.

#[local] Arguments Number_toString : simpl never.
#[local] Arguments stem : simpl never.
#[local] Arguments js : simpl never.

Section create.
Context `{Platform}.

(** C4.  When the title is missing (absent or empty) or the file is
    missing, the answer is 400 and the world is as before: no record, no
    object, no call.  When both are present, either no record was created,
    or the compressed object was put in the bucket under the generated key,
    the put came before the creation, and the new record carries that key.
    When all calls and the compression succeed, the answer is 201. *)
Theorem gallery_post_validation (mid : jsstring) (title : option jsstring)
    (request_file : option File) (w : World) :
  statusCode missing_fields = 400%Z
  ∧ (truthy title = false ∨ request_file = None →
       gallery_post mid title request_file w = (missing_fields, w))
  ∧ (∀ file, truthy title = true → request_file = Some file →
       let '(response, w') := gallery_post mid title request_file w in
       ((response = internal_error ∧ galleries w' = galleries w)
        ∨ ∃ id fileName data,
            (compressAndSaveFile file w).1 = Ok (fileName, data)
            ∧ response = mkResponse 201
                (GalleryDocument (id, mkGalleryItem mid (ToString title) fileName))
            ∧ galleries w !! id = None
            ∧ galleries w' = <[id := mkGalleryItem mid (ToString title) fileName]>
                               (galleries w)
            ∧ bucket w' = <[fileName := mkS3Object data (mimetype file)]> (bucket w)
            ∧ trace w' = trace w ++ [S3PutObject fileName; GalleryCreate])
       ∧ (outcomes w = [] →
          startsWith (mimetype file) (js "video") = true
          ∨ is_Some (sharp_jpeg 30 (buffer file)) →
          statusCode response = 201%Z)).
Proof.
  split; [done|]. split.
  - intros [Htitle| ->]; unfold gallery_post; [|by destruct title].
    destruct request_file; [|done]. by rewrite Htitle.
  - intros file Htitle ->.
    destruct w as [mons us gal bk outs rnd tr]. simpl.
    unfold gallery_post, compressAndSaveFile, Math_floor_random_1000000,
      s3_PutObject, Gallery_create. rewrite Htitle. run.
    destruct (startsWith (mimetype file) (js "video")); simpl.
    + repeat next_outcome; (split; [|done || by intros [=]]);
        try (by left); right; do 3 eexists; split_and!; try done;
        try (apply not_elem_of_dom, is_fresh); by rewrite <-app_assoc.
    + destruct (sharp_jpeg 30 (buffer file)) as [encoded|]; simpl;
        [|split; [by left|by intros _ [[=]|[? [=]]]]].
      repeat next_outcome; (split; [|done || by intros [=]]);
        try (by left); right; do 3 eexists; split_and!; try done;
        try (apply not_elem_of_dom, is_fresh); by rewrite <-app_assoc.
Qed.
End create.

Lemma gallery_post_validation_witness :
  let w := Scenario.fort_world [] in
  @gallery_post Scenario.platform (js "m1") None (Some Scenario.photo) w
    = (missing_fields, w)
  ∧ statusCode (@gallery_post Scenario.platform (js "m1") (Some (js "Gate"))
                  (Some Scenario.photo) w).1 = 201%Z.
Proof.
  intros w. split.
  - apply (@gallery_post_validation Scenario.platform). by left.
  - pose proof (@gallery_post_validation Scenario.platform (js "m1")
                  (Some (js "Gate")) (Some Scenario.photo) w) as (_ & _ & Hpost).
    specialize (Hpost Scenario.photo eq_refl eq_refl).
    destruct (@gallery_post Scenario.platform _ _ _ w) as [response w'].
    destruct Hpost as [_ Hlive]. apply Hlive; [reflexivity|].
    right. by eexists.
Defined.

(** ** Gallery routes: update *)

Section update.
Context `{Platform}.

End update.



(** When the delete of the previous object throws, the update ends with
    500 before the save: the stored record keeps the previous key and the
    new object stays in the bucket. *)
Lemma gallery_put_delete_failure `{Platform} (id : ObjectId)
    (title : option jsstring) (file : File) (w : World) g fileName data e rest :
  galleries w !! id = Some g →
  (compressAndSaveFile file w).1 = Ok (fileName, data) →
  outcomes w = Succeeds :: Succeeds :: Fails e :: rest →
  let '(response, w') := gallery_put id title (Some file) w in
  response = internal_error
  ∧ galleries w' = galleries w
  ∧ bucket w' = <[fileName := mkS3Object data (mimetype file)]> (bucket w).
Proof.
  destruct w as [mons us gal bk outs rnd tr]. simpl. intros Hg Hc ->.
  revert Hc.
  unfold gallery_put, Gallery_findById, compressAndSaveFile,
    Math_floor_random_1000000, s3_PutObject, s3_DeleteObject, Gallery_save.
  run. rewrite Hg. simpl.
  destruct (startsWith (mimetype file) (js "video")); simpl.
  - by intros [= <- <-].
  - destruct (sharp_jpeg 30 (buffer file)); simpl; [|done]. by intros [= <- <-].
Qed.

(** ** Reading the gallery of a monument *)

Section read.
Context `{Platform}.

Lemma all_succeed_tail outs : all_succeed outs → all_succeed (tail outs).
Proof. destruct outs; [done|]. by intros [_ ?]%Forall_cons_1. Qed.

Lemma all_succeed_next (w : World) :
  all_succeed (outcomes w) → next_call_succeeds w.
Proof.
  unfold next_call_succeeds. destruct (outcomes w) as [|o outs]; [done|].
  intros [-> _]%Forall_cons_1. done.
Qed.

(** The loop signs every item, in order, when no call throws. *)
Lemma sign_each_all_succeed (items : list (Doc GalleryItem)) (w : World) :
  all_succeed (outcomes w) →
  sign_each items w
  = (Ok (signed <$> items),
     with_outcomes (drop (length items) (outcomes w))
       (with_trace
          (trace w ++ ((λ d, S3GetSignedUrl (image d.2) 3600) <$> items)) w)).
Proof.
  revert w. induction items as [|d items IH]; intros w Hall.
  - simpl. destruct w. unfold mret, M_ret, with_outcomes, with_trace. simpl.
    by rewrite app_nil_r.
  - simpl. unfold mbind, M_bind, getSignedUrl.
    rewrite call_succeeds by by apply all_succeed_next. simpl.
    rewrite IH by by apply all_succeed_tail. simpl.
    unfold mret, M_ret, with_outcomes, with_trace. simpl.
    rewrite <-app_assoc. simpl.
    destruct (outcomes w); simpl; by rewrite ?drop_nil.
Qed.

Lemma signed_fields (d : Doc GalleryItem) :
  signed d !! "imageUrl" = Some (VStr (signedUrl awsBucketName (image d.2) 3600))
  ∧ ("imageUrl" ∉ dom (toObject d))
  ∧ dom (signed d) = dom (toObject d) ∪ {["imageUrl"]}
  ∧ ∀ k, k ≠ "imageUrl" → signed d !! k = toObject d !! k.
Proof.
  unfold signed, with_imageUrl. split_and!.
  - apply lookup_insert_eq.
  - apply not_elem_of_dom. unfold toObject. by simplify_map_eq.
  - rewrite dom_insert_L. set_solver.
  - intros k Hk. by apply lookup_insert_ne.
Qed.

(** C7.  When no call throws, the gallery route answers 200 with one object
    for every record of the monument and for no other record; the object
    is the stored record with one more field, [imageUrl], whose value is
    the URL signed for the record's key with [expiresIn] 3600; every other
    field is as stored.  The public route gives the same answer, and
    neither changes the stored data. *)
Theorem gallery_read_by_monument (mid : jsstring) (w : World) :
  all_succeed (outcomes w) →
  let items := filter (λ d : Doc GalleryItem, monumentId d.2 = mid)
                 (map_to_list (galleries w)) in
  let '(response, w') := gallery_get_by_monument mid w in
  response = mkResponse 200 (Objects (signed <$> items))
  ∧ public_get_gallery mid w = (response, w')
  ∧ (∀ id g, galleries w !! id = Some g → monumentId g = mid →
       signed (id, g) ∈ signed <$> items)
  ∧ (∀ o, o ∈ signed <$> items →
       ∃ id g, galleries w !! id = Some g ∧ monumentId g = mid
         ∧ o = signed (id, g))
  ∧ (∀ d, signed d !! "imageUrl"
            = Some (VStr (signedUrl awsBucketName (image d.2) 3600))
          ∧ ("imageUrl" ∉ dom (toObject d))
          ∧ dom (signed d) = dom (toObject d) ∪ {["imageUrl"]}
          ∧ ∀ k, k ≠ "imageUrl" → signed d !! k = toObject d !! k)
  ∧ trace w' = trace w ++ GalleryFind mid
                 :: ((λ d, S3GetSignedUrl (image d.2) 3600) <$> items)
  ∧ galleries w' = galleries w ∧ bucket w' = bucket w.
Proof.
  intros Hall items.
  assert (Hrun : gallery_get_by_monument mid w
    = (mkResponse 200 (Objects (signed <$> items)),
       with_outcomes (drop (length items) (tail (outcomes w)))
         (with_trace (trace w ++ GalleryFind mid
                        :: ((λ d, S3GetSignedUrl (image d.2) 3600) <$> items))
            w))).
  { unfold gallery_get_by_monument, handle, Gallery_find, mbind, M_bind.
    rewrite call_succeeds by by apply all_succeed_next. simpl.
    rewrite sign_each_all_succeed by by apply all_succeed_tail.
    fold items. unfold mret, M_ret, with_outcomes, with_trace. simpl.
    by rewrite <-app_assoc. }
  rewrite Hrun. split_and!; try done.
  - intros id g Hg Hmid. apply list_elem_of_fmap_2.
    apply list_elem_of_filter. split; [done|].
    by apply elem_of_map_to_list.
  - intros o (d & -> & Hd)%list_elem_of_fmap.
    apply list_elem_of_filter in Hd as [Hmid Hd].
    apply elem_of_map_to_list' in Hd. exists d.1, d.2. by destruct d.
  - apply signed_fields.
Qed.
End read.

Lemma gallery_read_by_monument_witness :
  (@gallery_get_by_monument Scenario.platform (js "m1") (Scenario.fort_world [])).1
  = mkResponse 200 (Objects [@signed Scenario.platform (7%N, Scenario.fort)]).
Proof.
  pose proof (@gallery_read_by_monument Scenario.platform (js "m1")
                (Scenario.fort_world []) (Forall_nil_2 _)) as Hread.
  simpl in Hread.
  destruct (@gallery_get_by_monument Scenario.platform _ _) as [response w'].
  destruct Hread as [-> _]. reflexivity.
Defined.

(** ** From the upload to the page *)

Section upload.
Context `{Platform}.

(** A created item carries the key the compressor returned for the file
    of the request. *)
Lemma gallery_post_created (mid : jsstring) (title : option jsstring)
    (file : File) (w w' : World) (d : Doc GalleryItem) :
  gallery_post mid title (Some file) w
    = (mkResponse 201 (GalleryDocument d), w') →
  (∃ data, (compressAndSaveFile file w).1 = Ok (image d.2, data))
  ∧ galleries w' !! d.1 = Some d.2.
Proof.
  destruct w as [mons us gal bk outs rnd tr].
  unfold gallery_post, compressAndSaveFile, Math_floor_random_1000000,
    s3_PutObject, Gallery_create.
  destruct (truthy title); run; [|by intros [=]].
  destruct (startsWith (mimetype file) (js "video")); simpl;
    try (destruct (sharp_jpeg 30 (buffer file)) as [encoded|]; simpl);
    repeat next_outcome; intros [= <- <-]; simpl;
    (split; [by eexists|apply lookup_insert_eq]).
Qed.

(** C10.  A key that [compressAndSaveFile] returns ends in ".mp4" exactly
    when the media type of the file starts with "video", and in ".jpg"
    exactly when it does not.  So for an item created by an upload, stored
    and sent to the page with a signed URL, the page renders the player
    exactly when the upload had a video media type, and an image
    otherwise. *)
Theorem upload_kind_by_extension :
  (∀ (file : File) (w w' : World) fileName data,
     compressAndSaveFile file w = (Ok (fileName, data), w') →
     endsWith fileName (js ".mp4") = startsWith (mimetype file) (js "video")
     ∧ endsWith fileName (js ".jpg")
       = negb (startsWith (mimetype file) (js "video")))
  ∧ (∀ mid title (file : File) (w w' : World) (d : Doc GalleryItem),
       gallery_post mid title (Some file) w
         = (mkResponse 201 (GalleryDocument d), w') →
       galleries w' !! d.1 = Some d.2
       ∧ ∀ url,
           Placedetails.gallery_element (with_imageUrl d url)
           = Some (if startsWith (mimetype file) (js "video")
                   then Placedetails.ReactPlayer (Some (VStr url))
                   else Placedetails.Img (Some (VStr url)))).
Proof.
  split; [apply compressAndSaveFile_extension|].
  intros mid title file w w' d Hpost.
  apply gallery_post_created in Hpost as [[data Hkey] Hstored].
  split; [done|]. intros url.
  destruct (compressAndSaveFile file w) as [r w1] eqn:Hc. simpl in Hkey.
  subst r. apply compressAndSaveFile_extension in Hc as [Hmp4 _].
  unfold Placedetails.gallery_element, with_imageUrl, toObject.
  simplify_map_eq. rewrite Hmp4.
  by destruct (startsWith (mimetype file) (js "video")).
Qed.
End upload.

Lemma upload_kind_by_extension_witness :
  ∃ d w',
    @gallery_post Scenario.platform (js "m1") (Some (js "Clip"))
      (Some Scenario.clip) (Scenario.fort_world [])
    = (mkResponse 201 (GalleryDocument d), w')
    ∧ image d.2 = js "clip1000042.mp4"
    ∧ ∀ url, Placedetails.gallery_element (with_imageUrl d url)
             = Some (Placedetails.ReactPlayer (Some (VStr url))).
Proof.
  eexists _, _. split; [by vm_compute|]. split; [by vm_compute|].
  intros url.
  refine (proj2 (proj2 (@upload_kind_by_extension Scenario.platform)
            (js "m1") (Some (js "Clip")) Scenario.clip (Scenario.fort_world [])
            _ _ _) url).
  by vm_compute.
Defined.

(** ** The map of a monument *)

Section map.
Import Placedetails.

(** C8.  For a location whose first two pieces between commas both parse
    as numbers, [isValidLatLong] is true and the page has a [Map] with the
    first piece as latitude and the second as longitude.  For the empty
    location the page has no [Map], and has the button, which leads to the
    address with an empty query.  For every location that does not parse
    (it has no second piece, or one of the two is not a number)
    [isValidLatLong] is false and the page has no [Map], as for a monument
    without location.  The button is there for every location. *)
Theorem map_section_location (loc : jsstring) :
  (∀ lat long rest,
     split comma loc = lat :: long :: rest →
     isNaN_parseFloat (Some lat) = false →
     isNaN_parseFloat (Some long) = false →
     isValidLatLong loc = true
     ∧ map_section (Some loc)
       = [Map (Some lat) (Some long); MapsButton (handleMapClick (Some loc))])
  ∧ (loc = [] →
       isValidLatLong loc = false
       ∧ map_section (Some loc) = [MapsButton (js "https://maps.google.com/?q=")])
  ∧ (¬ two_numeric_components loc →
       isValidLatLong loc = false
       ∧ map_block (Some loc) = [] ∧ map_block (Some loc) = map_block None)
  ∧ (isValidLatLong loc = true ↔ two_numeric_components loc)
  ∧ MapsButton (handleMapClick (Some loc)) ∈ map_section (Some loc).
Proof.
  assert (Hparsed : ∀ lat long rest,
            split comma loc = lat :: long :: rest →
            isNaN_parseFloat (Some lat) = false →
            isNaN_parseFloat (Some long) = false →
            isValidLatLong loc = true).
  { intros lat long rest Hsplit Hlat Hlong.
    unfold isValidLatLong. rewrite Hsplit. simpl. by rewrite Hlat, Hlong. }
  assert (Hunparsed : ¬ two_numeric_components loc → isValidLatLong loc = false).
  { intros Hnot. unfold isValidLatLong.
    destruct (split comma loc) as [|lat [|long rest]] eqn:Hsplit; simpl.
    - done.
    - by rewrite andb_false_r.
    - destruct (isNaN_parseFloat (Some lat)) eqn:Hlat; [done|].
      destruct (isNaN_parseFloat (Some long)) eqn:Hlong; [done|].
      destruct Hnot. by exists lat, long, rest. }
  split_and!.
  - intros lat long rest Hsplit Hlat Hlong.
    assert (Hvalid : isValidLatLong loc = true) by by eapply Hparsed.
    split; [done|]. unfold map_section, map_block.
    rewrite Hvalid, Hsplit. by destruct loc.
  - by intros ->.
  - intros Hnot. apply Hunparsed in Hnot as Hinvalid.
    split; [done|]. unfold map_block. rewrite Hinvalid.
    by rewrite andb_false_r.
  - split.
    + intros Hvalid.
      destruct (split comma loc) as [|lat [|long rest]] eqn:Hsplit;
        revert Hvalid; unfold isValidLatLong; rewrite Hsplit; simpl;
        try done; try (by rewrite andb_false_r).
      destruct (isNaN_parseFloat (Some lat)) eqn:Hlat; [done|].
      destruct (isNaN_parseFloat (Some long)) eqn:Hlong; [done|].
      intros _. by exists lat, long, rest.
    + intros (lat & long & rest & Hsplit & Hlat & Hlong). by eapply Hparsed.
  - unfold map_section, map_button. apply elem_of_app. right.
    apply list_elem_of_singleton. done.
Qed.

Lemma map_section_location_witness :
  (isValidLatLong (js "27.1751,78.0421") = true
   ∧ map_section (Some (js "27.1751,78.0421"))
     = [Map (Some (js "27.1751")) (Some (js "78.0421"));
        MapsButton (handleMapClick (Some (js "27.1751,78.0421")))])
  ∧ (isValidLatLong (js "27.1751,abc") = false
     ∧ map_block (Some (js "27.1751,abc")) = []
     ∧ map_block (Some (js "27.1751,abc")) = map_block None).
Proof.
  split.
  - apply (proj1 (map_section_location (js "27.1751,78.0421"))
             (js "27.1751") (js "78.0421") []); reflexivity.
  - apply (proj1 (proj2 (proj2 (map_section_location (js "27.1751,abc"))))).
    intros (lat & long & rest & Hsplit & _ & Hlong).
    injection Hsplit as _ <- _. discriminate Hlong.
Defined.

(** Locations that do not parse: no comma, a missing piece, text. *)
Lemma isValidLatLong_examples :
  isValidLatLong (js "27.1751") = false
  ∧ isValidLatLong (js "27.1751,") = false
  ∧ isValidLatLong (js "Agra, India") = false
  ∧ isValidLatLong (js " -27.5 , +.5e3 , x") = true.
Proof. by vm_compute. Qed.
End map.

(** * Further properties of the routes *)

(** ** How the steps of a handler compose *)

Lemma bind_run {A B} (c : M A) (f : A → M B) (w w' : World) r :
  (c ≫= f) w = (r, w') →
  (∃ a w1, c w = (Ok a, w1) ∧ f a w1 = (r, w'))
  ∨ (∃ e, c w = (Throw e, w') ∧ r = Throw e).
Proof.
  unfold mbind, M_bind. destruct (c w) as [[a|e] w1].
  - intros Hf. left. by exists a, w1.
  - intros [= <- <-]. right. by exists e.
Qed.

#[local] Instance same_records_refl : Reflexive same_records.
Proof. by intros w. Qed.

#[local] Instance same_records_trans : Transitive same_records.
Proof.
  intros w1 w2 w3 (? & ? & ?) (? & ? & ?). unfold same_records.
  split_and!; congruence.
Qed.

Lemma call_records {A} (ev : Event) (effect : World → A * World) (w w' : World) r :
  (∀ w0, same_records w0 (effect w0).2) →
  call ev effect w = (r, w') → same_records w w'.
Proof.
  intros Heff. unfold call.
  set (w1 := with_outcomes _ _).
  assert (same_records w w1) by done.
  destruct (head (outcomes w)) as [[|e]|];
    try (destruct (effect w1) as [a w2] eqn:Hw2;
         specialize (Heff w1); rewrite Hw2 in Heff);
    intros [= _ <-]; try done; by etrans.
Qed.

Lemma Gallery_findById_run (id : ObjectId) (w w' : World) r :
  Gallery_findById id w = (r, w') →
  same_records w w'
  ∧ ∀ d, r = Ok (Some d) → d.1 = id ∧ galleries w !! id = Some d.2.
Proof.
  intros Hrun. split; [by eapply call_records in Hrun|].
  revert Hrun. unfold Gallery_findById, call. simpl.
  destruct (head (outcomes w)) as [[|e]|]; intros [= <- _] d; try done;
    destruct (galleries w !! id); by intros [= <-].
Qed.

Lemma compressAndSaveFile_records `{Platform} (file : File) (w w' : World) r :
  compressAndSaveFile file w = (r, w') → same_records w w'.
Proof. intros ->%compressAndSaveFile_world. done. Qed.

Lemma s3_PutObject_records key data type (w w' : World) r :
  s3_PutObject key data type w = (r, w') → same_records w w'.
Proof. by apply call_records. Qed.

Lemma s3_DeleteObject_records key (w w' : World) r :
  s3_DeleteObject key w = (r, w') → same_records w w'.
Proof. by apply call_records. Qed.

Lemma Gallery_save_run (d : Doc GalleryItem) (w w' : World) r :
  Gallery_save d w = (r, w') →
  monuments w' = monuments w ∧ users w' = users w
  ∧ (galleries w' = galleries w
     ∨ galleries w' = <[d.1 := d.2]> (galleries w)).
Proof.
  unfold Gallery_save, call. simpl.
  destruct (head (outcomes w)) as [[|e]|]; intros [= _ <-]; simpl; eauto.
Qed.

(** ** Reads leave the stored data alone *)

Lemma same_data_refl (w : World) : same_data w w.
Proof. by unfold same_data. Qed.

Lemma call_read_same_data {A} (ev : Event) (f : World → A) (w w' : World) r :
  call ev (λ w, (f w, w)) w = (r, w') → same_data w w'.
Proof.
  unfold call. destruct (head (outcomes w)) as [[|e]|]; intros [= _ <-];
    by unfold same_data.
Qed.

Lemma sign_each_same_data `{Platform} (items : list (Doc GalleryItem))
    (w w' : World) r :
  sign_each items w = (r, w') → same_data w w'.
Proof.
  revert w w' r. induction items as [|d items IH]; intros w w' r; simpl.
  - intros [= _ <-]. apply same_data_refl.
  - unfold mbind, M_bind, getSignedUrl.
    destruct (call _ _ w) as [[url|e] w1] eqn:Hcall;
      apply call_read_same_data in Hcall.
    + destruct (sign_each items w1) as [[l|e] w2] eqn:Hrest;
        apply IH in Hrest; intros [= _ <-];
        unfold same_data in *; destruct_and!; split_and!; congruence.
    + by intros [= _ <-].
Qed.

Lemma calls_succeed_no_outcomes (n : nat) (w : World) :
  outcomes w = [] → calls_succeed n w.
Proof.
  unfold calls_succeed. intros ->. rewrite take_nil. apply Forall_nil_2.
Qed.

(** The loop stops at the first signing that throws, and then returns no
    list. *)
Lemma sign_each_throws `{Platform} (items : list (Doc GalleryItem)) (w : World) :
  ¬ calls_succeed (length items) w →
  ∃ e w', sign_each items w = (Throw e, w').
Proof.
  revert w. induction items as [|d items IH]; intros w Hnot; simpl.
  - destruct Hnot. apply Forall_nil_2.
  - unfold mbind, M_bind, getSignedUrl, call, with_outcomes, with_trace.
    destruct w as [mons us gal bk outs rnd tr]. unfold calls_succeed in *.
    simpl in *. destruct outs as [|[|e] outs]; simpl in *.
    + destruct Hnot. apply Forall_nil_2.
    + destruct (IH (mkWorld mons us gal bk outs rnd
                      (tr ++ [S3GetSignedUrl (image d.2) 3600])))
        as (e & w' & ->); [|by eauto].
      simpl. intros Hall. apply Hnot. by apply Forall_cons.
    + by eauto.
Qed.

Lemma sign_each_returns `{Platform} (items : list (Doc GalleryItem)) (w : World) :
  calls_succeed (length items) w →
  ∃ w', sign_each items w = (Ok (signed <$> items), w').
Proof.
  revert w. induction items as [|d items IH]; intros w Hall; simpl.
  - by eexists.
  - unfold mbind, M_bind, getSignedUrl, call, with_outcomes, with_trace.
    destruct w as [mons us gal bk outs rnd tr]. unfold calls_succeed in *.
    simpl in *. destruct outs as [|[|e] outs]; simpl in *.
    + destruct (IH (mkWorld mons us gal bk [] rnd
                      (tr ++ [S3GetSignedUrl (image d.2) 3600])))
        as (w' & ->); [by apply calls_succeed_no_outcomes|]. by eexists.
    + apply Forall_cons_1 in Hall as [_ Hall].
      destruct (IH (mkWorld mons us gal bk outs rnd
                      (tr ++ [S3GetSignedUrl (image d.2) 3600])))
        as (w' & ->); [done|]. by eexists.
    + by apply Forall_cons_1 in Hall as [[=] _].
Qed.

Section gallery_reads.
Context `{Platform}.

(** X1.  The gallery of a monument is answered with 200 exactly when
    the find and the signing of every item of the monument succeed; in
    every other run the answer is the fixed 500 with no list at all.  In no
    run does the route change the stored data. *)
Theorem gallery_get_by_monument_all_or_nothing (mid : jsstring) (w : World) :
  let items := filter (λ d : Doc GalleryItem, monumentId d.2 = mid)
                 (map_to_list (galleries w)) in
  let '(response, w') := gallery_get_by_monument mid w in
  same_data w w'
  ∧ (calls_succeed (1 + length items) w →
       response = mkResponse 200 (Objects (signed <$> items)))
  ∧ (¬ calls_succeed (1 + length items) w → response = internal_error).
Proof.
  intros items.
  destruct (gallery_get_by_monument mid w) as [response w'] eqn:Hrun.
  revert Hrun.
  unfold gallery_get_by_monument, handle, Gallery_find, mbind, M_bind, call,
    with_outcomes, with_trace.
  destruct w as [mons us gal bk outs rnd tr]. unfold calls_succeed. simpl in *.
  fold items.
  destruct outs as [|[|e] outs]; simpl; unfold mret, M_ret.
  - match goal with |- context [sign_each ?l ?x] =>
      change l with items;
      destruct (sign_each items x) as [[l'|e] w1] eqn:Hsign end.
    + intros [= <- <-]. apply sign_each_same_data in Hsign as Hsame.
      split; [done|]. split; [|intros []; apply Forall_nil_2].
      intros _. destruct (sign_each_returns items
        (mkWorld mons us gal bk [] rnd (tr ++ [GalleryFind mid]))) as (w2 & Hok).
      { by apply calls_succeed_no_outcomes. }
      rewrite Hok in Hsign. by injection Hsign as <- _.
    + destruct (sign_each_returns items
        (mkWorld mons us gal bk [] rnd (tr ++ [GalleryFind mid]))) as (w2 & Hok).
      { by apply calls_succeed_no_outcomes. }
      rewrite Hok in Hsign. discriminate.
  - match goal with |- context [sign_each ?l ?x] =>
      change l with items;
      destruct (sign_each items x) as [[l'|e] w1] eqn:Hsign end.
    + intros [= <- <-]. apply sign_each_same_data in Hsign as Hsame.
      split; [done|]. split.
      * intros [_ Hall]%Forall_cons_1.
        destruct (sign_each_returns items
          (mkWorld mons us gal bk outs rnd (tr ++ [GalleryFind mid])))
          as (w2 & Hok); [done|].
        rewrite Hok in Hsign. by injection Hsign as <- _.
      * intros Hnot.
        destruct (sign_each_throws items
          (mkWorld mons us gal bk outs rnd (tr ++ [GalleryFind mid])))
          as (e & w2 & Hthrow).
        { intros Hall. apply Hnot. by apply Forall_cons. }
        rewrite Hthrow in Hsign. discriminate.
    + intros [= <- <-]. apply sign_each_same_data in Hsign as Hsame.
      split; [done|]. split; [|done].
      intros [_ Hall]%Forall_cons_1.
      destruct (sign_each_returns items
        (mkWorld mons us gal bk outs rnd (tr ++ [GalleryFind mid])))
        as (w2 & Hok); [done|].
      rewrite Hok in Hsign. discriminate.
  - intros [= <- <-]. split; [done|]. split; [|done].
    by intros [[=] _]%Forall_cons_1.
Qed.
End gallery_reads.

Section gallery_one.
Context `{Platform}.

(** X2.  Reading one gallery item never changes the stored data.  When
    the store answers and has no record of the id, the answer is 404 and
    no URL is signed; when the record is there and both calls succeed, the
    answer is 200 with the stored fields and the URL signed for its key
    with [expiresIn] 3600; when one of the calls throws, it is the fixed
    500. *)
Theorem gallery_get_one_answers (id : ObjectId) (w : World) :
  let '(response, w') := gallery_get_one id w in
  same_data w w'
  ∧ (galleries w !! id = None → next_call_succeeds w →
       response = gallery_not_found
       ∧ trace w' = trace w ++ [GalleryFindById id])
  ∧ (∀ g, galleries w !! id = Some g → calls_succeed 2 w →
       response = mkResponse 200 (Object (signed (id, g))))
  ∧ (¬ calls_succeed 2 w → statusCode response ≠ 200%Z)
  ∧ (statusCode response = 200%Z ∨ response = gallery_not_found
     ∨ response = internal_error).
Proof.
  destruct w as [mons us gal bk outs rnd tr].
  unfold gallery_get_one, Gallery_findById, getSignedUrl, calls_succeed,
    next_call_succeeds, same_data. run.
  destruct (gal !! id) as [g|] eqn:Hg; simpl.
  - destruct outs as [|[|e] [|[|e'] outs]]; simpl;
      split_and!; try done; eauto;
      try (by intros ? [= <-] ?);
      try (by intros ? [= <-] [_ [[=] _]%Forall_cons_1]%Forall_cons_1);
      try (by intros ? [= <-] [[=] _]%Forall_cons_1);
      try (intros []; by repeat constructor).
  - destruct outs as [|[|e] outs]; simpl;
      split_and!; try done; eauto;
      try (by intros _ Hok; destruct (Hok e)).
Qed.
End gallery_one.

(** ** Delete *)

(** X3.  A delete of an id that has no record issues no storage call and
    changes no stored data; it is answered with 404 when the store
    answers, and with the fixed 500 when the store throws. *)
Theorem gallery_delete_absent (id : ObjectId) (w : World) :
  galleries w !! id = None →
  let '(response, w') := gallery_delete id w in
  same_data w w'
  ∧ trace w' = trace w ++ [GalleryFindByIdAndDelete id]
  ∧ (next_call_succeeds w → response = gallery_not_found)
  ∧ (¬ next_call_succeeds w → response = internal_error).
Proof.
  destruct w as [mons us gal bk outs rnd tr]. simpl. intros Hg.
  unfold gallery_delete, Gallery_findByIdAndDelete, s3_DeleteObject,
    next_call_succeeds, same_data. run.
  destruct outs as [|[|e] outs]; simpl; rewrite ?Hg; simpl;
    rewrite ?delete_id by done; split_and!; try done.
  - by intros [].
  - by intros [].
  - intros Hok. by destruct (Hok e).
Qed.

Lemma gallery_delete_absent_witness :
  let '(response, w') := gallery_delete 8%N (Scenario.fort_world []) in
  same_data (Scenario.fort_world []) w'
  ∧ trace w' = trace (Scenario.fort_world []) ++ [GalleryFindByIdAndDelete 8%N]
  ∧ (next_call_succeeds (Scenario.fort_world []) → response = gallery_not_found)
  ∧ (¬ next_call_succeeds (Scenario.fort_world []) → response = internal_error).
Proof.
  apply (gallery_delete_absent 8%N (Scenario.fort_world [])). reflexivity.
Defined.

(** X4.  In every run a delete leaves every other record as it is, and
    leaves every object as it is except the one under the key of the
    deleted record. *)
Theorem gallery_delete_frame (id : ObjectId) (w : World) :
  let w' := (gallery_delete id w).2 in
  (∀ id', id' ≠ id → galleries w' !! id' = galleries w !! id')
  ∧ (∀ key, (∀ g, galleries w !! id = Some g → image g ≠ key) →
       bucket w' !! key = bucket w !! key)
  ∧ monuments w' = monuments w ∧ users w' = users w.
Proof.
  destruct w as [mons us gal bk outs rnd tr]. simpl.
  unfold gallery_delete, Gallery_findByIdAndDelete, s3_DeleteObject. run.
  destruct outs as [|[|e] outs]; simpl;
    destruct (gal !! id) as [g|] eqn:Hg; simpl;
    try (destruct outs as [|[|e'] outs]; simpl);
    split_and!; try done;
    try (by intros id' Hne; apply lookup_delete_ne);
    intros key Hkey; apply lookup_delete_ne; by apply Hkey.
Qed.

(** ** Update *)

Section update_more.
Context `{Platform}.

Ltac unfold_put :=
  unfold gallery_put, Gallery_findById, compressAndSaveFile,
    Math_floor_random_1000000, s3_PutObject, s3_DeleteObject, Gallery_save,
    set_imgTitle, set_image.

(** X5.  An update of an id that has no record compresses nothing, calls
    the storage for nothing and changes no stored data, whatever title and
    file were sent; it is answered with 404 when the store answers. *)
Theorem gallery_put_absent (id : ObjectId) (title : option jsstring)
    (request_file : option File) (w : World) :
  galleries w !! id = None →
  let '(response, w') := gallery_put id title request_file w in
  same_data w w'
  ∧ randoms w' = randoms w
  ∧ trace w' = trace w ++ [GalleryFindById id]
  ∧ (next_call_succeeds w → response = gallery_not_found).
Proof.
  destruct w as [mons us gal bk outs rnd tr]. simpl. intros Hg.
  unfold_put. unfold next_call_succeeds, same_data. run.
  destruct outs as [|[|e] outs]; simpl; rewrite ?Hg; simpl;
    split_and!; try done.
  intros Hok. by destruct (Hok e).
Qed.

(** X6.  An update with no file leaves the bucket and the key of the
    record as they are and calls the storage for nothing.  When it is
    answered with 200 the record has the title sent, if that is not empty,
    and is unchanged otherwise; it is answered with 200 when no call
    throws. *)
Theorem gallery_put_title_only (id : ObjectId) (title : option jsstring)
    (w : World) g :
  galleries w !! id = Some g →
  let '(response, w') := gallery_put id title None w in
  let updated :=
    mkGalleryItem (monumentId g)
      (if truthy title then ToString title else imgTitle g) (image g) in
  bucket w' = bucket w
  ∧ (trace w' = trace w ++ [GalleryFindById id]
     ∨ trace w' = trace w ++ [GalleryFindById id; GallerySave id])
  ∧ (statusCode response = 200%Z →
       response = mkResponse 200 (GalleryDocument (id, updated))
       ∧ galleries w' = <[id := updated]> (galleries w))
  ∧ (statusCode response ≠ 200%Z → galleries w' = galleries w)
  ∧ (truthy title = false → galleries w' = galleries w)
  ∧ (calls_succeed 2 w → statusCode response = 200%Z).
Proof.
  destruct w as [mons us gal bk outs rnd tr]. simpl. intros Hg.
  unfold_put. unfold calls_succeed. run.
  assert (Hid : <[id := g]> gal = gal) by by apply insert_id.
  destruct g as [gm gt gi]. simpl in *.
  destruct (truthy title); simpl;
    destruct outs as [|[|e] [|[|e'] outs]]; simpl; rewrite ?Hg; simpl;
    rewrite <-?app_assoc; simpl;
    split_and!; try done; eauto;
    try (by intros [_ [[=] _]%Forall_cons_1]%Forall_cons_1);
    try (by intros [[=] _]%Forall_cons_1).
Qed.

(** X7.  In every run an update leaves every other record as it is,
    creates no record, and keeps the monument of the record it
    updates. *)
Theorem gallery_put_frame (id : ObjectId) (title : option jsstring)
    (request_file : option File) (w : World) :
  let w' := (gallery_put id title request_file w).2 in
  (∀ id', id' ≠ id → galleries w' !! id' = galleries w !! id')
  ∧ (∀ g', galleries w' !! id = Some g' →
       ∃ g, galleries w !! id = Some g ∧ monumentId g' = monumentId g)
  ∧ monuments w' = monuments w ∧ users w' = users w.
Proof.
  assert (Hsame : ∀ w w' : World, same_records w w' →
    (∀ id', id' ≠ id → galleries w' !! id' = galleries w !! id')
    ∧ (∀ g', galleries w' !! id = Some g' →
         ∃ g, galleries w !! id = Some g ∧ monumentId g' = monumentId g)
    ∧ monuments w' = monuments w ∧ users w' = users w).
  { intros w0 w1 (-> & -> & ->). split_and!; by eauto. }
  simpl. unfold gallery_put, handle, mret, M_ret.
  match goal with |- context [mbind ?f ?c w] =>
    destruct (mbind f c w) as [r w'] eqn:Hrun end.
  assert (Hw' : (let (r0, w0) := (r, w') in
                 match r0 with
                 | Ok r1 => (r1, w0)
                 | Throw e => (internal_server_error e, w0)
                 end).2 = w') by by destruct r.
  rewrite Hw'. clear Hw'.
  apply bind_run in Hrun as [(found & w1 & Hfind & Hrun)|(e & Hfind & _)];
    apply Gallery_findById_run in Hfind as [Hrec1 Hfound];
    [|by apply Hsame].
  destruct found as [d|]; [|simpl in Hrun; simplify_eq; by apply Hsame].
  destruct (Hfound d eq_refl) as [Hid Hd].
  apply bind_run in Hrun as [(d1 & w2 & Hfile & Hrun)|(e & Hfile & _)].
  - assert (Hd1 : same_records w1 w2
                  ∧ d1.1 = id ∧ monumentId d1.2 = monumentId d.2).
    { destruct request_file as [file|]; [|simpl in Hfile; by simplify_eq].
      apply bind_run in Hfile as [([fileName data] & w3 & Hc & Hfile)|(e & Hc & [=])].
      apply compressAndSaveFile_records in Hc.
      apply bind_run in Hfile as [([] & w4 & Hput & Hfile)|(e & Hput & [=])].
      apply s3_PutObject_records in Hput.
      apply bind_run in Hfile as [([] & w5 & Hdel & Hfile)|(e & Hdel & [=])].
      apply s3_DeleteObject_records in Hdel.
      simpl in Hfile. simplify_eq. split; [|done].
      by repeat (etrans; [eassumption|]). }
    destruct Hd1 as (Hrec2 & Hid1 & Hmon1).
    apply bind_run in Hrun as [([] & w3 & Hsave & Hrun)|(e & Hsave & _)].
    + simpl in Hrun. injection Hrun as _ <-.
      apply Gallery_save_run in Hsave as (Hm & Hu & [Hg|Hg]);
        [apply Hsame; by repeat (etrans; [eassumption|])|].
      assert (Hw2 : same_records w w2) by by etrans.
      destruct Hw2 as (Hm2 & Hu2 & Hg2).
      revert Hg. destruct (truthy title); simpl; rewrite Hid1, Hg2; intros ->.
      all: split_and!; [by intros id' Hne; apply lookup_insert_ne| |by etrans..].
      all: rewrite lookup_insert_eq; intros g' [= <-]; exists d.2; by split.
    + apply Gallery_save_run in Hsave as (Hm & Hu & [Hg|Hg]).
      * apply Hsame. by repeat (etrans; [eassumption|]).
      * assert (Hw2 : same_records w w2) by by etrans.
        destruct Hw2 as (Hm2 & Hu2 & Hg2).
        revert Hg. destruct (truthy title); simpl; rewrite Hid1, Hg2; intros ->.
        all: split_and!; [by intros id' Hne; apply lookup_insert_ne| |by etrans..].
        all: rewrite lookup_insert_eq; intros g' [= <-]; exists d.2; by split.
  - apply Hsame. etrans; [eassumption|].
    destruct request_file as [file|]; [|discriminate].
    apply bind_run in Hfile as [([fileName data] & w3 & Hc & Hfile)|(e' & Hc & _)];
      apply compressAndSaveFile_records in Hc; [|done].
    apply bind_run in Hfile as [([] & w4 & Hput & Hfile)|(e' & Hput & _)];
      apply s3_PutObject_records in Hput; [|by etrans].
    apply bind_run in Hfile as [([] & w5 & Hdel & Hfile)|(e' & Hdel & _)];
      apply s3_DeleteObject_records in Hdel; [discriminate|].
    by repeat (etrans; [eassumption|]).
Qed.

(** X8.  When the save throws after the previous object was deleted, the
    update is answered with 500 and the stored record still has the
    previous key, under which the bucket has no object any more. *)
Theorem gallery_put_save_failure (id : ObjectId) (title : option jsstring)
    (file : File) (w : World) g fileName data e rest :
  galleries w !! id = Some g →
  (compressAndSaveFile file w).1 = Ok (fileName, data) →
  outcomes w = Succeeds :: Succeeds :: Succeeds :: Fails e :: rest →
  let '(response, w') := gallery_put id title (Some file) w in
  response = internal_error
  ∧ galleries w' !! id = Some g
  ∧ bucket w' !! image g = None
  ∧ ¬ no_dangling w'.
Proof.
  destruct w as [mons us gal bk outs rnd tr]. simpl. intros Hg Hc ->.
  revert Hc. unfold_put. run. rewrite Hg. simpl.
  assert (Hdangling : ∀ b : gmap jsstring S3Object,
            ¬ no_dangling (mkWorld mons us gal (delete (image g) b) rest
                             (tail rnd)
                             (tr ++ [GalleryFindById id; S3PutObject fileName;
                                     S3DeleteObject (image g); GallerySave id]))).
  { intros b Hno. destruct (Hno id g Hg) as [o Ho]. simpl in Ho.
    by rewrite lookup_delete_eq in Ho. }
  destruct (startsWith (mimetype file) (js "video")); simpl.
  - intros [= <- <-]. destruct (truthy title); simpl;
      rewrite <-!app_assoc; simpl; split_and!; try done;
      try apply lookup_delete_eq; apply Hdangling.
  - destruct (sharp_jpeg 30 (buffer file)); simpl; [|done].
    intros [= <- <-]. destruct (truthy title); simpl;
      rewrite <-!app_assoc; simpl; split_and!; try done;
      try apply lookup_delete_eq; apply Hdangling.
Qed.
End update_more.

Lemma gallery_put_save_failure_witness :
  let w := Scenario.fort_world
             [Succeeds; Succeeds; Succeeds; Fails (js "timeout")] in
  let '(response, w') :=
    @gallery_put Scenario.platform 7%N None (Some Scenario.photo) w in
  response = internal_error
  ∧ galleries w' !! 7%N = Some Scenario.fort
  ∧ bucket w' !! image Scenario.fort = None
  ∧ ¬ no_dangling w'.
Proof.
  apply (@gallery_put_save_failure Scenario.platform 7%N None Scenario.photo
           (Scenario.fort_world
              [Succeeds; Succeeds; Succeeds; Fails (js "timeout")])
           Scenario.fort (js "gate1000042.jpg") [Byte.x0c] (js "timeout") []);
    reflexivity.
Defined.

Lemma gallery_put_absent_witness :
  let w := Scenario.fort_world [] in
  let '(response, w') :=
    @gallery_put Scenario.platform 8%N (Some (js "Gate")) (Some Scenario.photo) w in
  same_data w w'
  ∧ randoms w' = randoms w
  ∧ trace w' = trace w ++ [GalleryFindById 8%N]
  ∧ (next_call_succeeds w → response = gallery_not_found).
Proof.
  apply (@gallery_put_absent Scenario.platform 8%N (Some (js "Gate"))
           (Some Scenario.photo) (Scenario.fort_world [])).
  reflexivity.
Defined.

Lemma gallery_put_title_only_witness :
  let w := Scenario.fort_world [] in
  let '(response, w') := @gallery_put Scenario.platform 7%N (Some (js "Gate")) None w in
  let updated :=
    mkGalleryItem (monumentId Scenario.fort)
      (if truthy (Some (js "Gate")) then ToString (Some (js "Gate"))
       else imgTitle Scenario.fort) (image Scenario.fort) in
  bucket w' = bucket w
  ∧ (trace w' = trace w ++ [GalleryFindById 7%N]
     ∨ trace w' = trace w ++ [GalleryFindById 7%N; GallerySave 7%N])
  ∧ (statusCode response = 200%Z →
       response = mkResponse 200 (GalleryDocument (7%N, updated))
       ∧ galleries w' = <[7%N := updated]> (galleries w))
  ∧ (statusCode response ≠ 200%Z → galleries w' = galleries w)
  ∧ (truthy (Some (js "Gate")) = false → galleries w' = galleries w)
  ∧ (calls_succeed 2 w → statusCode response = 200%Z).
Proof.
  apply (@gallery_put_title_only Scenario.platform 7%N (Some (js "Gate"))
           (Scenario.fort_world []) Scenario.fort).
  reflexivity.
Defined.

(** ** Create *)

Lemma s3_PutObject_run key data type (w w' : World) r :
  s3_PutObject key data type w = (r, w') →
  galleries w' = galleries w
  ∧ ((r = Ok () ∧ bucket w' = <[key := mkS3Object data type]> (bucket w))
     ∨ ((∃ e, r = Throw e) ∧ bucket w' = bucket w)).
Proof.
  unfold s3_PutObject, call. simpl.
  destruct (head (outcomes w)) as [[|e]|]; intros [= <- <-]; simpl; eauto.
Qed.

Lemma Gallery_create_run (g : GalleryItem) (w w' : World) r :
  Gallery_create g w = (r, w') →
  bucket w' = bucket w
  ∧ (((∃ e, r = Throw e) ∧ galleries w' = galleries w)
     ∨ ∃ id, r = Ok (id, g) ∧ galleries w !! id = None
             ∧ galleries w' = <[id := g]> (galleries w)).
Proof.
  unfold Gallery_create, call. simpl.
  destruct (head (outcomes w)) as [[|e]|]; intros [= <- <-]; simpl;
    split; try done; eauto;
    right; eexists; split_and!; try done; apply not_elem_of_dom, is_fresh.
Qed.

Section create_more.
Context `{Platform}.

(** The three steps of a create, for a title and a file that are there. *)
Lemma gallery_post_steps (mid : jsstring) (title : option jsstring)
    (file : File) (w w' : World) response :
  truthy title = true →
  gallery_post mid title (Some file) w = (response, w') →
  (* the compression throws *)
  (response = internal_error ∧ same_data w w' ∧ trace w' = trace w)
  ∨ ∃ fileName data,
      (compressAndSaveFile file w).1 = Ok (fileName, data)
      ∧ ((* the put throws *)
         (response = internal_error ∧ same_data w w')
         ∨ (bucket w' = <[fileName := mkS3Object data (mimetype file)]> (bucket w)
            ∧ ((* the creation throws *)
               (response = internal_error ∧ galleries w' = galleries w)
               ∨ ∃ id,
                   response = mkResponse 201
                     (GalleryDocument
                        (id, mkGalleryItem mid (ToString title) fileName))
                   ∧ galleries w !! id = None
                   ∧ galleries w' = <[id := mkGalleryItem mid (ToString title)
                                              fileName]> (galleries w)))).
Proof.
  intros Htitle. unfold gallery_post, handle. rewrite Htitle.
  match goal with |- context [mbind ?f ?c w] =>
    destruct (mbind f c w) as [r w1] eqn:Hrun end.
  apply bind_run in Hrun as [([fileName data] & w2 & Hc & Hrun)|(e & Hc & ->)].
  - intros Hresp. right. exists fileName, data. split; [by rewrite Hc|].
    apply compressAndSaveFile_world in Hc as ->.
    apply bind_run in Hrun as [([] & w3 & Hput & Hrun)|(e & Hput & ->)];
      pose proof (s3_PutObject_records _ _ _ _ _ _ Hput) as (Hmon & Hus & _).
    + apply s3_PutObject_run in Hput as [Hgal [[_ Hbk]|[[e' [=]] _]]].
      right. apply bind_run in Hrun as [(d & w4 & Hcreate & Hrun)|(e & Hcreate & ->)];
        apply Gallery_create_run in Hcreate as [Hbk' [[[e' ?] Hgal']|(id & ? & Hnone & Hgal')]];
        try discriminate; unfold mret, M_ret in *; simplify_eq/=.
      * split; [congruence|]. right. exists id. rewrite <-Hgal. done.
      * split; [congruence|]. left. split; [done|congruence].
    + apply s3_PutObject_run in Hput as [Hgal [[[=] _]|[_ Hbk]]].
      left. simplify_eq/=. done.
  - intros [= <- <-]. left. apply compressAndSaveFile_world in Hc as ->.
    by unfold same_data.
Qed.
End create_more.

Lemma calls_succeed_2 (w : World) :
  calls_succeed 2 w →
  outcomes w = [] ∨ outcomes w = [Succeeds]
  ∨ ∃ rest, outcomes w = Succeeds :: Succeeds :: rest.
Proof.
  unfold calls_succeed, all_succeed.
  destruct (outcomes w) as [|o1 [|o2 rest]]; simpl; eauto.
  - intros [-> _]%Forall_cons_1. eauto.
  - intros [-> [-> _]%Forall_cons_1]%Forall_cons_1. eauto.
Qed.

Lemma gallery_delete_found (id : ObjectId) (w : World) g :
  galleries w !! id = Some g → calls_succeed 2 w →
  ∃ w', gallery_delete id w = (deleted_successfully, w')
        ∧ galleries w' = delete id (galleries w)
        ∧ bucket w' = delete (image g) (bucket w).
Proof.
  intros Hg Hok. destruct w as [mons us gal bk outs rnd tr]. simpl in *.
  unfold gallery_delete, Gallery_findByIdAndDelete, s3_DeleteObject. run.
  pose proof (calls_succeed_2 _ Hok) as Ho; simpl in Ho;
  destruct Ho as [->|[->|[rest ->]]]; simpl;
    rewrite Hg; simpl; by eexists.
Qed.

Section create_more2.
Context `{Platform}.

Lemma gallery_get_one_found (id : ObjectId) (w : World) g :
  galleries w !! id = Some g → calls_succeed 2 w →
  (gallery_get_one id w).1 = mkResponse 200 (Object (signed (id, g))).
Proof.
  intros Hg Hok. destruct w as [mons us gal bk outs rnd tr]. simpl in *.
  unfold gallery_get_one, Gallery_findById, getSignedUrl. run.
  pose proof (calls_succeed_2 _ Hok) as Ho; simpl in Ho;
  destruct Ho as [->|[->|[rest ->]]]; simpl;
    by rewrite Hg.
Qed.

Lemma gallery_post_returns (mid : jsstring) (title : option jsstring)
    (file : File) (w : World) fileName data :
  truthy title = true →
  (compressAndSaveFile file w).1 = Ok (fileName, data) →
  calls_succeed 2 w →
  ∃ w', gallery_post mid title (Some file) w
        = (mkResponse 201
             (GalleryDocument (fresh (dom (galleries w)),
                               mkGalleryItem mid (ToString title) fileName)),
           w')
        ∧ galleries w' = <[fresh (dom (galleries w))
                           := mkGalleryItem mid (ToString title) fileName]>
                           (galleries w)
        ∧ bucket w' = <[fileName := mkS3Object data (mimetype file)]> (bucket w).
Proof.
  intros Htitle Hc Hok. destruct w as [mons us gal bk outs rnd tr].
  simpl in *. revert Hc.
  unfold gallery_post, compressAndSaveFile, Math_floor_random_1000000,
    s3_PutObject, Gallery_create. rewrite Htitle. run.
  destruct (startsWith (mimetype file) (js "video")); simpl;
    [|destruct (sharp_jpeg 30 (buffer file)); simpl; [|done]];
    intros [= <- <-];
    pose proof (calls_succeed_2 _ Hok) as Ho; simpl in Ho;
  destruct Ho as [->|[->|[rest ->]]]; simpl;
    by eexists.
Qed.

(** X9.  When the put succeeds and the creation of the record throws,
    the upload is answered with 500, no record is created, and the object
    stays in the bucket under the generated key. *)
Theorem gallery_post_orphan_object (mid : jsstring) (title : option jsstring)
    (file : File) (w : World) fileName data e rest :
  truthy title = true →
  (compressAndSaveFile file w).1 = Ok (fileName, data) →
  outcomes w = Succeeds :: Fails e :: rest →
  let '(response, w') := gallery_post mid title (Some file) w in
  response = internal_error
  ∧ galleries w' = galleries w
  ∧ bucket w' = <[fileName := mkS3Object data (mimetype file)]> (bucket w).
Proof.
  intros Htitle Hc Hout. destruct w as [mons us gal bk outs rnd tr].
  simpl in *. subst outs. revert Hc.
  unfold gallery_post, compressAndSaveFile, Math_floor_random_1000000,
    s3_PutObject, Gallery_create. rewrite Htitle. run.
  destruct (startsWith (mimetype file) (js "video")); simpl;
    [|destruct (sharp_jpeg 30 (buffer file)); simpl; [|done]];
    by intros [= <- <-].
Qed.

(** X10.  When the encoder throws on a file that is not a video, the
    upload is answered with 500 before any call to the storage or to the
    document store, and nothing is stored. *)
Theorem gallery_post_compress_error (mid : jsstring) (title : option jsstring)
    (file : File) (w : World) :
  truthy title = true →
  startsWith (mimetype file) (js "video") = false →
  sharp_jpeg 30 (buffer file) = None →
  let '(response, w') := gallery_post mid title (Some file) w in
  response = internal_error
  ∧ same_data w w'
  ∧ trace w' = trace w ∧ outcomes w' = outcomes w.
Proof.
  intros Htitle Hvideo Henc.
  unfold gallery_post, handle. rewrite Htitle.
  unfold mbind, M_bind. rewrite compressAndSaveFile_encoder_error by done.
  by destruct w.
Qed.

(** X11.  In every run an upload leaves every record that was there as
    it is, and if every record had an object under its key before, every
    record has one after. *)
Theorem gallery_post_keeps_records (mid : jsstring) (title : option jsstring)
    (request_file : option File) (w : World) :
  let w' := (gallery_post mid title request_file w).2 in
  (∀ id g, galleries w !! id = Some g → galleries w' !! id = Some g)
  ∧ (no_dangling w → no_dangling w').
Proof.
  simpl.
  destruct (gallery_post mid title request_file w) as [response w'] eqn:Hpost.
  simpl.
  assert (Hsame : galleries w' = galleries w →
                  (∀ key, is_Some (bucket w !! key) → is_Some (bucket w' !! key)) →
                  (∀ id g, galleries w !! id = Some g → galleries w' !! id = Some g)
                  ∧ (no_dangling w → no_dangling w')).
  { intros Hgal Hbk. split; [by rewrite Hgal|].
    intros Hno id g. rewrite Hgal. intros Hg. by apply Hbk, (Hno id). }
  assert (Hput : ∀ (key' key : jsstring) o,
            is_Some (bucket w !! key) → is_Some (<[key' := o]> (bucket w) !! key)).
  { intros key' key o Hkey. apply lookup_insert_is_Some'. by right. }
  destruct request_file as [file|];
    [destruct (truthy title) eqn:Htitle|].
  - apply gallery_post_steps in Hpost
      as [(_ & (_ & _ & Hgal & Hbk) & _)
         |(fileName & data & _ & [(_ & (_ & _ & Hgal & Hbk))
                                 |(Hbk & [(_ & Hgal)|(id & _ & Hnone & Hgal)])])];
      try done.
    + apply Hsame; [done|]. by rewrite Hbk.
    + apply Hsame; [done|]. by rewrite Hbk.
    + apply Hsame; [done|]. rewrite Hbk. intros key. apply Hput.
    + assert (Hold : ∀ id0 g0, galleries w !! id0 = Some g0 →
                               galleries w' !! id0 = Some g0).
      { intros id0 g0 Hg0. rewrite Hgal, lookup_insert_ne; [done|].
        intros ->. congruence. }
      split; [done|]. intros Hno id0 g0. rewrite Hgal, Hbk.
      destruct (decide (id = id0)) as [->|Hne].
      * rewrite lookup_insert_eq. intros [= <-]. simpl.
        rewrite lookup_insert_eq. by eexists.
      * rewrite lookup_insert_ne by done. intros Hg0.
        apply Hput. by apply (Hno id0).
  - revert Hpost. unfold gallery_post, handle. rewrite Htitle.
    intros [= _ <-]. by apply Hsame.
  - revert Hpost. unfold gallery_post, handle. intros [= _ <-]. by apply Hsame.
Qed.

(** X12.  The generated key is not checked against the keys in use.  When
    it is the key of a record that is there, a successful upload puts its
    object over the previous one: the old record is as it was, the new
    record has the same key, and the bucket has the new bytes under it. *)
Theorem gallery_post_same_key (mid : jsstring) (title : option jsstring)
    (file : File) (w : World) id0 g0 data :
  truthy title = true →
  galleries w !! id0 = Some g0 →
  (compressAndSaveFile file w).1 = Ok (image g0, data) →
  calls_succeed 2 w →
  let '(response, w') := gallery_post mid title (Some file) w in
  ∃ id, id ≠ id0
    ∧ response = mkResponse 201
        (GalleryDocument (id, mkGalleryItem mid (ToString title) (image g0)))
    ∧ galleries w' !! id0 = Some g0
    ∧ galleries w' !! id = Some (mkGalleryItem mid (ToString title) (image g0))
    ∧ bucket w' !! image g0 = Some (mkS3Object data (mimetype file)).
Proof.
  intros Htitle Hg0 Hc Hok.
  destruct (gallery_post_returns mid title file w _ _ Htitle Hc Hok)
    as (w' & -> & Hgal & Hbk).
  assert (Hfresh : fresh (dom (galleries w)) ≠ id0).
  { intros Heq. pose proof (is_fresh (dom (galleries w))) as Hnot.
    rewrite Heq in Hnot. apply Hnot, elem_of_dom. by eexists. }
  exists (fresh (dom (galleries w))). split_and!; try done.
  - by rewrite Hgal, lookup_insert_ne.
  - by rewrite Hgal, lookup_insert_eq.
  - by rewrite Hbk, lookup_insert_eq.
Qed.

(** X13.  An item that an upload created can be read back: its id is
    answered with 200, the monument and the title of the request, the
    generated key, and the URL signed for that key; the bucket has under
    the key the bytes the compressor returned, with the media type of the
    file. *)
Theorem gallery_post_then_get_one (mid : jsstring) (title : option jsstring)
    (file : File) (w w1 : World) (d : Doc GalleryItem) :
  gallery_post mid title (Some file) w
    = (mkResponse 201 (GalleryDocument d), w1) →
  calls_succeed 2 w1 →
  (gallery_get_one d.1 w1).1 = mkResponse 200 (Object (signed d))
  ∧ signed d !! "monumentId" = Some (VStr mid)
  ∧ signed d !! "imgTitle" = Some (VStr (ToString title))
  ∧ signed d !! "image" = Some (VStr (image d.2))
  ∧ signed d !! "imageUrl"
    = Some (VStr (signedUrl awsBucketName (image d.2) 3600))
  ∧ ∃ data, (compressAndSaveFile file w).1 = Ok (image d.2, data)
            ∧ bucket w1 !! image d.2 = Some (mkS3Object data (mimetype file)).
Proof.
  intros Hpost Hok.
  assert (Htitle : truthy title = true).
  { revert Hpost. unfold gallery_post, handle.
    destruct (truthy title); [done|]. by intros [= ? _]. }
  pose proof Hpost as Hstored. apply gallery_post_created in Hstored as [_ Hstored].
  apply gallery_post_steps in Hpost
    as [([=] & _)|(fileName & data & Hc & [([=] & _)|(Hbk & [([=] & _)|(id & [= ->] & _)])])];
    [|done].
  simpl in *. split_and!.
  - rewrite (gallery_get_one_found _ _ _ Hstored Hok). done.
  - unfold signed, with_imageUrl, toObject. by simplify_map_eq.
  - unfold signed, with_imageUrl, toObject. by simplify_map_eq.
  - unfold signed, with_imageUrl, toObject. by simplify_map_eq.
  - unfold signed, with_imageUrl. by simplify_map_eq.
  - exists data. split; [done|]. by rewrite Hbk, lookup_insert_eq.
Qed.
End create_more2.

(** X14.  A delete of an item that an upload has just created, when both
    its calls succeed, takes the records back to what they were before the
    upload and removes the object of the generated key; the bucket is back
    to what it was when that key was free before the upload. *)
Theorem gallery_post_then_delete `{Platform} (mid : jsstring)
    (title : option jsstring) (file : File) (w w1 : World) (d : Doc GalleryItem) :
  gallery_post mid title (Some file) w
    = (mkResponse 201 (GalleryDocument d), w1) →
  calls_succeed 2 w1 →
  let '(response, w2) := gallery_delete d.1 w1 in
  response = deleted_successfully
  ∧ galleries w2 = galleries w
  ∧ bucket w2 = delete (image d.2) (bucket w)
  ∧ (bucket w !! image d.2 = None → bucket w2 = bucket w).
Proof.
  intros Hpost Hok.
  assert (Htitle : truthy title = true).
  { revert Hpost. unfold gallery_post, handle.
    destruct (truthy title); [done|]. by intros [= ? _]. }
  pose proof Hpost as Hstored. apply gallery_post_created in Hstored as [_ Hstored].
  apply gallery_post_steps in Hpost
    as [([=] & _)|(fileName & data & Hc & [([=] & _)|(Hbk & [([=] & _)|(id & [= ->] & Hnone & Hgal)])])];
    [|done].
  destruct (gallery_delete_found _ _ _ Hstored Hok) as (w2 & -> & Hgal2 & Hbk2).
  simpl in *. rewrite Hgal2, Hbk2, Hgal, Hbk.
  rewrite !delete_insert_eq. split_and!; [done| |done|].
  - by apply delete_id.
  - intros Hfree. by apply delete_id.
Qed.

(** X15.  In every run a delete keeps the rule that every record has an
    object under its key, provided no other record has the key of the
    deleted one. *)
Theorem gallery_delete_keeps_objects (id : ObjectId) (w : World) :
  (∀ g id' g', galleries w !! id = Some g → id' ≠ id →
     galleries w !! id' = Some g' → image g' ≠ image g) →
  no_dangling w → no_dangling (gallery_delete id w).2.
Proof.
  destruct w as [mons us gal bk outs rnd tr]. unfold no_dangling. simpl.
  unfold gallery_delete, Gallery_findByIdAndDelete, s3_DeleteObject. run.
  intros Hkeys Hno.
  assert (Hrest : ∀ id' g', delete id gal !! id' = Some g' →
                            is_Some (bk !! image g')).
  { intros id' g' [_ Hg']%lookup_delete_Some. by apply (Hno id'). }
  destruct (gal !! id) as [g|] eqn:Hg; simpl;
    destruct outs as [|[|e] [|[|e'] outs]]; simpl; try done.
  all: intros id' g' Hg'; pose proof Hg' as [Hne Hin]%lookup_delete_Some.
  all: rewrite lookup_delete_ne; [by apply (Hno id')|].
  all: intros Heq; by apply (Hkeys g id' g').
Qed.

Lemma gallery_delete_keeps_objects_witness :
  galleries (gallery_delete 7%N two_items_world).2 !! 9%N = Some gate
  ∧ no_dangling (gallery_delete 7%N two_items_world).2.
Proof.
  split; [reflexivity|].
  apply (gallery_delete_keeps_objects 7%N two_items_world).
  - intros g id' g' Hg Hne Hg'. simpl in Hg, Hg'.
    rewrite lookup_insert_ne, lookup_singleton_eq in Hg by done.
    injection Hg as <-.
    apply lookup_insert_Some in Hg' as [[_ <-]|[_ Hg']]; [done|].
    apply lookup_singleton_Some in Hg' as [Heq _]. by destruct Hne.
  - intros id g Hg. simpl in Hg.
    apply lookup_insert_Some in Hg as [[_ <-]|[_ Hg]].
    + by eexists.
    + apply lookup_singleton_Some in Hg as [_ <-]. by eexists.
Defined.

(** X16.  When two records have the same key, a delete of one of them
    that succeeds leaves the other in the store with no object under its
    key. *)
Theorem gallery_delete_shared_key (id id' : ObjectId) (w : World) g g' :
  galleries w !! id = Some g → galleries w !! id' = Some g' →
  id' ≠ id → image g' = image g → calls_succeed 2 w →
  let '(response, w') := gallery_delete id w in
  response = deleted_successfully
  ∧ galleries w' !! id' = Some g'
  ∧ bucket w' !! image g' = None.
Proof.
  intros Hg Hg' Hne Hkey Hok.
  destruct (gallery_delete_found _ _ _ Hg Hok) as (w' & -> & -> & ->).
  split_and!; [done| |].
  - by rewrite lookup_delete_ne.
  - rewrite Hkey. apply lookup_delete_eq.
Qed.

(** ** Public routes *)

Lemma verified_monuments (w : World) (d : Doc Monument) :
  d ∈ filter (λ d, verified d = true) (map_to_list (monuments w))
  ↔ monuments w !! d.1 = Some d.2 ∧ status d.2 = 1%Z.
Proof.
  split.
  - intros [Hv Hd]%list_elem_of_filter. apply bool_decide_eq_true in Hv.
    by apply elem_of_map_to_list' in Hd.
  - intros [Hd Hv]. apply list_elem_of_filter. split.
    + by apply bool_decide_eq_true.
    + by apply elem_of_map_to_list'.
Qed.

(** X17.  When the query succeeds the public list is answered with 200
    and holds, once each, exactly the monuments of the store that have
    status 1. *)
Theorem public_get_all_verified (w : World) :
  next_call_succeeds w →
  ∃ l, (public_get_all w).1 = mkResponse 200 (Monuments l)
       ∧ NoDup l
       ∧ ∀ d, d ∈ l ↔ monuments w !! d.1 = Some d.2 ∧ status d.2 = 1%Z.
Proof.
  intros Hok. eexists. split_and!.
  - unfold public_get_all, handle, Monument_find_verified, mbind, M_bind.
    by rewrite call_succeeds.
  - simpl. apply NoDup_filter, NoDup_map_to_list.
  - intros d. simpl. apply verified_monuments.
Qed.

Lemma public_get_all_verified_witness :
  ∃ l, (public_get_all Scenario.five_world).1 = mkResponse 200 (Monuments l)
       ∧ NoDup l
       ∧ ∀ d, d ∈ l ↔ monuments Scenario.five_world !! d.1 = Some d.2
                      ∧ status d.2 = 1%Z.
Proof.
  apply (public_get_all_verified Scenario.five_world).
  intros e. vm_compute. discriminate.
Defined.

(** X18.  The latest three are monuments of the public list, each once;
    when the list has at most three monuments they are the whole list. *)
Theorem public_latest3_of_list (w : World) :
  next_call_succeeds w →
  ∃ latest all,
    (public_latest3 w).1 = mkResponse 200 (Monuments latest)
    ∧ (public_get_all w).1 = mkResponse 200 (Monuments all)
    ∧ latest ⊆ all
    ∧ NoDup latest
    ∧ (length all ≤ 3 → latest ≡ₚ all).
Proof.
  intros Hok.
  set (all := filter (λ d, verified d = true) (map_to_list (monuments w))).
  assert (Hperm : merge_sort newest_first all ≡ₚ all)
    by apply merge_sort_Permutation.
  assert (Hnodup : NoDup all) by apply NoDup_filter, NoDup_map_to_list.
  exists (take 3 (merge_sort newest_first all)), all. split_and!.
  - unfold public_latest3, handle, Monument_find_verified_sort_limit3, mbind,
      M_bind. by rewrite call_succeeds.
  - unfold public_get_all, handle, Monument_find_verified, mbind, M_bind.
    by rewrite call_succeeds.
  - intros d Hd. apply (subseteq_take 3) in Hd. by rewrite Hperm in Hd.
  - eapply sublist_NoDup; [|apply sublist_take]. by rewrite Hperm.
  - intros Hlen. rewrite take_ge; [done|].
    by rewrite (Permutation_length Hperm).
Qed.

Lemma public_latest3_of_list_witness :
  ∃ latest all,
    (public_latest3 Scenario.five_world).1 = mkResponse 200 (Monuments latest)
    ∧ (public_get_all Scenario.five_world).1 = mkResponse 200 (Monuments all)
    ∧ latest ⊆ all
    ∧ NoDup latest
    ∧ (length all ≤ 3 → latest ≡ₚ all).
Proof.
  apply (public_latest3_of_list Scenario.five_world).
  intros e. vm_compute. discriminate.
Defined.

(** X19.  When the first call to the store throws, the public routes for
    monuments answer 500 with the message of the error, whereas the
    gallery routes and the public gallery answer with a fixed text. *)
Theorem store_error_answers `{Platform} (w : World) (id : ObjectId)
    (mid : jsstring) (title : option jsstring) (file : option File) e :
  head (outcomes w) = Some (Fails e) →
  (public_get_all w).1 = mkResponse 500 (Message e)
  ∧ (public_latest3 w).1 = mkResponse 500 (Message e)
  ∧ (public_get_one id w).1 = mkResponse 500 (Message e)
  ∧ (public_get_gallery mid w).1 = internal_error
  ∧ (gallery_get_by_monument mid w).1 = internal_error
  ∧ (gallery_get_one id w).1 = internal_error
  ∧ (gallery_put id title file w).1 = internal_error
  ∧ (gallery_delete id w).1 = internal_error.
Proof.
  intros Hfail.
  unfold public_get_all, public_latest3, public_get_one, public_get_gallery,
    gallery_get_by_monument, gallery_get_one, gallery_put, gallery_delete,
    handle, mbind, M_bind,
    Monument_find_verified, Monument_find_verified_sort_limit3,
    Monument_findById, Gallery_find, Gallery_findById,
    Gallery_findByIdAndDelete.
  by rewrite !(call_fails _ _ _ e Hfail).
Qed.

Lemma store_error_answers_witness :
  let w := Scenario.fort_world [Fails (js "ECONNREFUSED")] in
  (public_get_all w).1 = mkResponse 500 (Message (js "ECONNREFUSED"))
  ∧ (public_latest3 w).1 = mkResponse 500 (Message (js "ECONNREFUSED"))
  ∧ (public_get_one 7%N w).1 = mkResponse 500 (Message (js "ECONNREFUSED"))
  ∧ (@public_get_gallery Scenario.platform (js "m1") w).1 = internal_error
  ∧ (@gallery_get_by_monument Scenario.platform (js "m1") w).1 = internal_error
  ∧ (@gallery_get_one Scenario.platform 7%N w).1 = internal_error
  ∧ (@gallery_put Scenario.platform 7%N None None w).1 = internal_error
  ∧ (gallery_delete 7%N w).1 = internal_error.
Proof.
  apply (@store_error_answers Scenario.platform
           (Scenario.fort_world [Fails (js "ECONNREFUSED")]) 7%N (js "m1")
           None None (js "ECONNREFUSED")).
  reflexivity.
Defined.

(** X20.  One monument is answered with 200 exactly when the monument and
    its user resolve and neither read throws; the answer is then the
    monument, whatever its status, and the name of its user.  In no run
    does the route change the stored data. *)
Theorem public_get_one_answers (id : ObjectId) (w : World) :
  let '(response, w') := public_get_one id w in
  same_data w w'
  ∧ (∀ m u, monuments w !! id = Some m → users w !! user m = Some u →
       calls_succeed 2 w →
       response = mkResponse 200 (Combined (id, m) (name u)))
  ∧ (statusCode response = 200%Z →
       ∃ m u, monuments w !! id = Some m ∧ users w !! user m = Some u
              ∧ calls_succeed 2 w)
  ∧ (statusCode response = 200%Z ∨ statusCode response = 500%Z).
Proof.
  destruct w as [mons us gal bk outs rnd tr].
  unfold public_get_one, Monument_findById, User_findById, calls_succeed,
    same_data. run.
  destruct (mons !! id) as [m|] eqn:Hm; simpl.
  - destruct outs as [|[|e] [|[|e'] outs]]; simpl;
      destruct (us !! user m) as [u|] eqn:Hu; simpl;
      split_and!; try done; eauto;
      try (intros m0 u0 [= <-] Hu0 Hall; rewrite Hu in Hu0; simplify_eq;
           try done;
           apply Forall_cons_1 in Hall as [? Hall]; try done;
           by apply Forall_cons_1 in Hall as [? Hall]);
      try (intros _; exists m, u; split_and!; try done; by repeat constructor).
  - destruct outs as [|[|e] outs]; simpl; split_and!; try done; eauto.
Qed.

(** ** Keys and names *)

Lemma uint_codes_inj (u u' : Decimal.uint) :
  uint_codes u = uint_codes u' → u = u'.
Proof.
  revert u'. induction u; intros u'; destruct u'; simpl; try done;
    intros [= Heq]; f_equal; by apply IHu.
Qed.

Lemma Number_toString_inj (n n' : N) :
  Number_toString n = Number_toString n' → n = n'.
Proof.
  unfold Number_toString. intros Heq%uint_codes_inj.
  by apply DecimalN.Unsigned.to_uint_inj.
Qed.

Lemma split_no_separator (sep : N) (s : jsstring) :
  sep ∉ s → split sep s = [s].
Proof.
  induction s as [|c s IH]; [done|]. intros [Hne Hs]%not_elem_of_cons. simpl.
  destruct (N.eqb_spec c sep) as [->|_]; [done|]. by rewrite IH.
Qed.

Lemma split_at_separator (sep : N) (a b : jsstring) :
  sep ∉ a → split sep (a ++ sep :: b) = a :: split sep b.
Proof.
  induction a as [|c a IH]; simpl.
  - intros _. by rewrite N.eqb_refl.
  - intros [Hne Ha]%not_elem_of_cons.
    destruct (N.eqb_spec c sep) as [->|_]; [done|]. by rewrite IH.
Qed.

Section keys.
Context `{Platform}.

(** X21.  For one file, two runs of the compressor return the same key
    exactly when they drew the same random number. *)
Theorem generated_key_random (file : File) (w1 w2 : World) k1 d1 k2 d2 :
  (compressAndSaveFile file w1).1 = Ok (k1, d1) →
  (compressAndSaveFile file w2).1 = Ok (k2, d2) →
  k1 = k2 ↔ default 0%N (head (randoms w1)) = default 0%N (head (randoms w2)).
Proof.
  unfold compressAndSaveFile, Math_floor_random_1000000, mbind, M_bind, mret,
    M_ret, throw.
  destruct (startsWith (mimetype file) (js "video")); simpl;
    [|destruct (sharp_jpeg 30 (buffer file)); simpl; [|done]];
    intros [= <- _] [= <- _]; (split; [|by intros ->]);
    intros Heq%app_inv_head%app_inv_tail%Number_toString_inj; lia.
Qed.

(** X22.  The key takes from the name of the file only the text before
    its first ".": a name without "." goes in whole, and whatever follows
    the first "." (the extension of the upload too) has no part in the key
    or in the bytes. *)
Theorem key_from_name_before_dot (a b type : jsstring) (data : Buffer)
    (w : World) :
  dot ∉ a →
  stem a = a
  ∧ stem (a ++ dot :: b) = a
  ∧ compressAndSaveFile (mkFile (a ++ dot :: b) type data) w
    = compressAndSaveFile (mkFile a type data) w.
Proof.
  intros Ha.
  assert (Hstem : stem a = a) by (unfold stem; by rewrite split_no_separator).
  assert (Hstem' : stem (a ++ dot :: b) = a)
    by (unfold stem; by rewrite split_at_separator).
  split_and!; [done..|].
  unfold compressAndSaveFile. simpl. by rewrite Hstem, Hstem'.
Qed.
End keys.

Lemma generated_key_random_witness :
  js "clip1000042.mp4" = js "clip1000042.mp4"
  ↔ default 0%N (head (randoms (Scenario.fort_world [])))
    = default 0%N (head (randoms (Scenario.fort_world [Succeeds]))).
Proof.
  apply (@generated_key_random Scenario.platform Scenario.clip
           (Scenario.fort_world []) (Scenario.fort_world [Succeeds])
           (js "clip1000042.mp4") (buffer Scenario.clip)
           (js "clip1000042.mp4") (buffer Scenario.clip)); reflexivity.
Defined.

Lemma key_from_name_before_dot_witness :
  stem (js "clip") = js "clip"
  ∧ stem (js "clip" ++ dot :: js "final.mov") = js "clip"
  ∧ @compressAndSaveFile Scenario.platform
      (mkFile (js "clip" ++ dot :: js "final.mov") (js "video/quicktime") [])
      Scenario.empty_world
    = @compressAndSaveFile Scenario.platform
        (mkFile (js "clip") (js "video/quicktime") []) Scenario.empty_world.
Proof.
  apply (@key_from_name_before_dot Scenario.platform (js "clip")
           (js "final.mov") (js "video/quicktime") [] Scenario.empty_world).
  vm_compute. intros Hin.
  repeat (apply elem_of_cons in Hin as [Hin|Hin]; [discriminate Hin|]).
  by apply elem_of_nil in Hin.
Defined.

(** ** The page of a monument *)

Section page.
Import Placedetails.

Lemma isNaN_parseFloat_digit (d : N) (rest : jsstring) :
  isDigit d = true → isNaN_parseFloat (Some (d :: rest)) = false.
Proof.
  intros Hd. pose proof Hd as [Hlo Hhi]%andb_true_iff.
  apply N.leb_le in Hlo, Hhi.
  assert (Hws : isWhiteSpace d = false).
  { apply bool_decide_eq_false. unfold whiteSpace.
    rewrite !elem_of_cons, elem_of_nil. lia. }
  assert (Hplus : (d =? 43)%N = false) by (apply N.eqb_neq; lia).
  assert (Hminus : (d =? 45)%N = false) by (apply N.eqb_neq; lia).
  unfold isNaN_parseFloat. cbn [ToString trimStart].
  rewrite Hws, Hplus, Hminus. cbn [orb].
  unfold hasUnsignedDecimalPrefix. rewrite Hd. cbn [orb negb].
  by rewrite orb_true_r.
Qed.

(** X23.  A location with no comma is never valid, and the page has no
    [Map] for it. *)
Theorem isValidLatLong_needs_comma (loc : jsstring) :
  comma ∉ loc → isValidLatLong loc = false ∧ map_block (Some loc) = [].
Proof.
  intros Hloc.
  assert (Hvalid : isValidLatLong loc = false).
  { unfold isValidLatLong. rewrite split_no_separator by done. simpl.
    by rewrite andb_false_r. }
  split; [done|]. unfold map_block. by rewrite Hvalid, andb_false_r.
Qed.

Lemma isValidLatLong_needs_comma_witness :
  isValidLatLong (js "27.1751 78.0421") = false
  ∧ map_block (Some (js "27.1751 78.0421")) = [].
Proof.
  apply (isValidLatLong_needs_comma (js "27.1751 78.0421")).
  vm_compute. intros Hin.
  repeat (apply elem_of_cons in Hin as [Hin|Hin]; [discriminate Hin|]).
  by apply elem_of_nil in Hin.
Defined.

(** X24.  Validity looks at the start of the pieces only: when the text
    before the first comma and the text after it both start with a digit,
    the location is valid whatever follows the digits, and the [Map] gets
    the first piece as it is written, not the number read from it. *)
Theorem isValidLatLong_digit_start (d1 d2 : N) (r1 r2 : jsstring) :
  isDigit d1 = true → isDigit d2 = true → comma ∉ r1 →
  let loc := (d1 :: r1) ++ comma :: d2 :: r2 in
  isValidLatLong loc = true
  ∧ ∃ long, long `prefix_of` d2 :: r2
            ∧ map_block (Some loc) = [Map (Some (d1 :: r1)) (Some long)].
Proof.
  intros Hd1 Hd2 Hr1 loc.
  assert (Hne : ∀ d, isDigit d = true → d ≠ comma).
  { intros d Hd ->. done. }
  assert (Hsplit : ∃ p ps, split comma loc = (d1 :: r1) :: (d2 :: p) :: ps
                           ∧ d2 :: p `prefix_of` d2 :: r2).
  { unfold loc. rewrite split_at_separator
      by (apply not_elem_of_cons; split; [by apply not_eq_sym, Hne|done]).
    simpl. destruct (N.eqb_spec d2 comma) as [Heq|_]; [by apply Hne in Heq|].
    destruct (split_first comma r2) as (p & ps & -> & _ & Hcase).
    exists p, ps. split; [done|]. apply prefix_cons.
    destruct Hcase as [[_ ->]|[_ [rest ->]]]; [done|]. by apply prefix_app_r. }
  destruct Hsplit as (p & ps & Hsplit & Hprefix).
  assert (Hvalid : isValidLatLong loc = true).
  { unfold isValidLatLong. rewrite Hsplit. simpl.
    by rewrite !isNaN_parseFloat_digit. }
  split; [done|]. exists (d2 :: p). split; [done|].
  unfold map_block. by rewrite Hvalid, Hsplit.
Qed.

Lemma isValidLatLong_digit_start_witness :
  isValidLatLong (js "12 north,34 east") = true
  ∧ ∃ long, long `prefix_of` js "34 east"
            ∧ map_block (Some (js "12 north,34 east"))
              = [Map (Some (js "12 north")) (Some long)].
Proof.
  apply (isValidLatLong_digit_start 49 51 (js "2 north") (js "4 east"));
    [reflexivity..|].
  vm_compute. intros Hin.
  repeat (apply elem_of_cons in Hin as [Hin|Hin]; [discriminate Hin|]).
  by apply elem_of_nil in Hin.
Defined.
End page.

Section pages.
Import Placedetails.

(** X25.  The gallery of the page shows the items of its own place only.
    Of a response of the gallery route for a monument it shows, in order,
    one element for every item when the monument is the place of the
    page (the player for a key that ends in ".mp4", an image otherwise,
    both on the signed URL) and nothing at all when it is another
    monument. *)
Theorem gallery_section_of_response `{Platform} (placeId mid : jsstring)
    (items : list (Doc GalleryItem)) :
  Forall (λ d, monumentId d.2 = mid) items →
  gallery_section placeId (signed <$> items)
  = if decide (mid = placeId)
    then (λ d : Doc GalleryItem,
            let url := Some (VStr (signedUrl awsBucketName (image d.2) 3600)) in
            Some (if endsWith (image d.2) (js ".mp4")
                  then ReactPlayer url else Img url)) <$> items
    else [].
Proof.
  unfold gallery_section. induction 1 as [|d items Hd _ IH].
  - simpl. by destruct (decide _).
  - assert (Hmid : signed d !! "monumentId" = Some (VStr mid)).
    { unfold signed, with_imageUrl, toObject. rewrite Hd. by simplify_map_eq. }
    assert (Helem : gallery_element (signed d)
                    = Some (if endsWith (image d.2) (js ".mp4")
                            then ReactPlayer (Some (VStr (signedUrl awsBucketName
                                                            (image d.2) 3600)))
                            else Img (Some (VStr (signedUrl awsBucketName
                                                    (image d.2) 3600))))).
    { unfold gallery_element, signed, with_imageUrl, toObject.
      by simplify_map_eq. }
    rewrite fmap_cons. destruct (decide (mid = placeId)) as [->|Hne].
    + rewrite filter_cons_True by done. rewrite !fmap_cons, IH. simpl.
      by rewrite Helem.
    + rewrite filter_cons_False; [done|]. rewrite Hmid. intros [= ?]. done.
Qed.

(** X26.  A click on the verification block sends a request only for an
    administrator who confirms the dialog; the request is the unverify one
    exactly when the status is 1 and the verify one otherwise, for the id
    of the monument.  The page moves to the list only after the request
    has succeeded. *)
Theorem verify_click_request (isAdmin : bool) (status : Z) (_id : jsstring)
    (cfm : bool) (reply : Reply) :
  let effects :=
    default [] ((λ click, click cfm reply) <$> verify_click isAdmin status _id) in
  (∀ url, AxiosPut url ∈ effects ↔
     isAdmin = true ∧ cfm = true
     ∧ url = (if bool_decide (status = 1%Z)
              then js "admin/unverify/" else js "admin/verify/") ++ _id)
  ∧ (∀ path, Navigate path ∈ effects ↔
       isAdmin = true ∧ cfm = true ∧ (∃ message, reply = Resolved message)
       ∧ path = js "/manage/ListMonuments").
Proof.
  unfold verify_click, clickToVerify, clickToUnverify.
  destruct isAdmin, cfm, (bool_decide (status = 1%Z)), reply; simpl;
    split; intros x; rewrite ?elem_of_cons, ?elem_of_nil; naive_solver.
Qed.

(** X27.  Whatever the order in which the two requests of the page
    settle, and however often: the page shows the loader until the gallery
    request has settled; after that it shows the details of the last
    monument data that arrived, and stays blank when none has arrived (the
    request for the monument failed or is still out). *)
Theorem page_view (placeId : jsstring) (arrivals : list Arrival) :
  let p := foldl arrive mounted arrivals in
  (render placeId p = Loader ↔ existsb is_gallery arrivals = false)
  ∧ (render placeId p = Blank ↔
       existsb is_gallery arrivals = true ∧ last_combined arrivals = None)
  ∧ (∀ data gallery, render placeId p = Details data gallery ↔
       existsb is_gallery arrivals = true
       ∧ last_combined arrivals = Some data
       ∧ gallery = gallery_section placeId (galleryImages p)).
Proof.
  assert (Hfold : ∀ l p0,
    loading (foldl arrive p0 l) = loading p0 && negb (existsb is_gallery l)
    ∧ combinedData (foldl arrive p0 l)
      = foldl (λ acc a, match a with CombinedArrived d => Some d | _ => acc end)
          (combinedData p0) l).
  { induction l as [|a l IH]; intros p0; simpl.
    - by rewrite andb_true_r.
    - destruct (IH (arrive p0 a)) as [-> ->].
      destruct a; simpl; by rewrite ?andb_false_r. }
  simpl. destruct (Hfold arrivals mounted) as [Hloading Hdata].
  simpl in Hloading, Hdata. fold (last_combined arrivals) in Hdata.
  unfold render. rewrite Hloading, Hdata.
  destruct (existsb is_gallery arrivals), (last_combined arrivals); simpl;
    split_and!; try done; try (intros ??); naive_solver.
Qed.
End pages.

Lemma gallery_section_of_response_witness :
  Placedetails.gallery_section (js "m1")
    (@signed Scenario.platform <$> [(7%N, Scenario.fort)])
  = [Some (Placedetails.Img
             (Some (VStr (@signedUrl Scenario.platform
                            (@awsBucketName Scenario.platform)
                            (js "fort1000007.jpg") 3600))))].
Proof.
  apply (@gallery_section_of_response Scenario.platform (js "m1") (js "m1")
           [(7%N, Scenario.fort)]).
  by repeat constructor.
Defined.

(** ** The table of the Home page *)

(** X28.  After a delete that the server accepted the table has no row of
    that id and has every other row, in the order they were in; when the
    id was in no row the table is as before.  After a delete that failed
    the table is as before and the alert is shown.  In both cases the rows
    are numbered from 1 without gaps. *)
Theorem Home_deleteMonument (id : ObjectId) (reply : Outcome)
    (data : list (Doc Monument)) :
  let '(data', alert) := Home.deleteMonument id reply data in
  (reply = Succeeds →
     alert = None
     ∧ (∀ m, m ∈ data' ↔ m ∈ data ∧ m.1 ≠ id)
     ∧ data' `sublist_of` data
     ∧ (id ∉ data.*1 → data' = data))
  ∧ (reply ≠ Succeeds →
       data' = data
       ∧ alert = Some (js "Delete Error: Could not be deleted"))
  ∧ (Home.rows data').*1 = seq 1 (length data').
Proof.
  assert (Hrows : ∀ l : list (Doc Monument), (Home.rows l).*1 = seq 1 (length l)).
  { intros l. unfold Home.rows. rewrite fmap_imap.
    rewrite (imap_ext _ (λ j _, S j)) by (intros; simpl; lia).
    by rewrite imap_seq_0, fmap_S_seq. }
  destruct reply as [|e]; simpl; split_and!; try done.
  intros _. split_and!; [done| | |].
  - intros m. rewrite list_elem_of_filter. tauto.
  - apply sublist_filter.
  - induction data as [|m data IH]; [done|]. rewrite fmap_cons.
    intros [Hne Hid]%not_elem_of_cons.
    rewrite filter_cons_True by (by apply not_eq_sym). f_equal. by apply IH.
Qed.

(** ** Runs of the scenarios *)

Lemma gallery_post_orphan_object_witness :
  let w := Scenario.fort_world [Succeeds; Fails (js "E11000")] in
  let '(response, w') :=
    @gallery_post Scenario.platform (js "m1") (Some (js "Gate"))
      (Some Scenario.photo) w in
  response = internal_error
  ∧ galleries w' = galleries w
  ∧ bucket w' = <[js "gate1000042.jpg"
                  := mkS3Object [Byte.x0c] (mimetype Scenario.photo)]> (bucket w).
Proof.
  apply (@gallery_post_orphan_object Scenario.platform (js "m1")
           (Some (js "Gate")) Scenario.photo
           (Scenario.fort_world [Succeeds; Fails (js "E11000")])
           (js "gate1000042.jpg") [Byte.x0c] (js "E11000") []); reflexivity.
Defined.

Lemma gallery_post_compress_error_witness :
  let w := Scenario.fort_world [] in
  let '(response, w') :=
    @gallery_post Scenario.platform (js "m1") (Some (js "Empty"))
      (Some (mkFile (js "empty.png") (js "image/png") [])) w in
  response = internal_error
  ∧ same_data w w'
  ∧ trace w' = trace w ∧ outcomes w' = outcomes w.
Proof.
  apply (@gallery_post_compress_error Scenario.platform (js "m1")
           (Some (js "Empty")) (mkFile (js "empty.png") (js "image/png") [])
           (Scenario.fort_world [])); reflexivity.
Defined.

Lemma gallery_post_same_key_witness :
  let w := with_randoms [7%N] (Scenario.fort_world []) in
  let '(response, w') :=
    @gallery_post Scenario.platform (js "m2") (Some (js "Other fort"))
      (Some (mkFile (js "fort.png") (js "image/png") [Byte.x02])) w in
  ∃ id, id ≠ 7%N
    ∧ response = mkResponse 201
        (GalleryDocument (id, mkGalleryItem (js "m2")
                                (ToString (Some (js "Other fort")))
                                (image Scenario.fort)))
    ∧ galleries w' !! 7%N = Some Scenario.fort
    ∧ galleries w' !! id
      = Some (mkGalleryItem (js "m2") (ToString (Some (js "Other fort")))
                (image Scenario.fort))
    ∧ bucket w' !! image Scenario.fort
      = Some (mkS3Object [Byte.x02] (js "image/png")).
Proof.
  apply (@gallery_post_same_key Scenario.platform (js "m2")
           (Some (js "Other fort"))
           (mkFile (js "fort.png") (js "image/png") [Byte.x02])
           (with_randoms [7%N] (Scenario.fort_world []))
           7%N Scenario.fort [Byte.x02]); try reflexivity.
  by apply calls_succeed_no_outcomes.
Defined.

Lemma gallery_post_then_get_one_witness :
  let posted := @gallery_post Scenario.platform (js "m1") (Some (js "Clip"))
                  (Some Scenario.clip) (Scenario.fort_world []) in
  let d := (8%N, mkGalleryItem (js "m1") (js "Clip") (js "clip1000042.mp4")) in
  (@gallery_get_one Scenario.platform d.1 posted.2).1
  = mkResponse 200 (Object (@signed Scenario.platform d)).
Proof.
  intros posted d.
  refine (proj1 (@gallery_post_then_get_one Scenario.platform (js "m1")
                   (Some (js "Clip")) Scenario.clip (Scenario.fort_world [])
                   posted.2 d _ _)).
  - by vm_compute.
  - by apply calls_succeed_no_outcomes.
Defined.

Lemma gallery_post_then_delete_witness :
  let w := Scenario.fort_world [] in
  let posted := @gallery_post Scenario.platform (js "m1") (Some (js "Clip"))
                  (Some Scenario.clip) w in
  let '(response, w2) := gallery_delete 8%N posted.2 in
  response = deleted_successfully
  ∧ galleries w2 = galleries w
  ∧ bucket w2 = delete (js "clip1000042.mp4") (bucket w)
  ∧ (bucket w !! js "clip1000042.mp4" = None → bucket w2 = bucket w).
Proof.
  intros w posted.
  refine (@gallery_post_then_delete Scenario.platform (js "m1")
            (Some (js "Clip")) Scenario.clip w posted.2
            (8%N, mkGalleryItem (js "m1") (js "Clip") (js "clip1000042.mp4"))
            _ _).
  - by vm_compute.
  - by apply calls_succeed_no_outcomes.
Defined.

Lemma gallery_delete_shared_key_witness :
  let copy := mkGalleryItem (js "m2") (js "Other fort") (js "fort1000007.jpg") in
  let w := with_galleries (<[9%N := copy]> (galleries (Scenario.fort_world [])))
             (Scenario.fort_world []) in
  let '(response, w') := gallery_delete 7%N w in
  response = deleted_successfully
  ∧ galleries w' !! 9%N = Some copy
  ∧ bucket w' !! image copy = None.
Proof.
  intros copy w.
  apply (gallery_delete_shared_key 7%N 9%N w Scenario.fort copy);
    try reflexivity; [done|].
  by apply calls_succeed_no_outcomes.
Defined.
